(** * vite-multi-spa: request routing, redirect patterns and output flattening

    A shallow embedding of the plugin function [viteMultiSpa] (the version
    with the [redirects] option) and of the JavaScript and Node primitives
    it is written with.

    Strings are lists of 8-bit characters: every character class the plugin
    relies on ([\w], [/], [?], [*], [:], the regular-expression syntax
    characters) is ASCII.  Paths follow the POSIX flavour of [node:path]. *)

From Stdlib Require Import Ascii String List Bool Arith Lia ZArith.
Import ListNotations.
Open Scope string_scope.
Open Scope list_scope.

(** ** Strings *)

Abbreviation str := (list ascii).

Definition lit (s : string) : list ascii := list_ascii_of_string s.
Coercion lit : string >-> list.

Fixpoint str_eqb (a b : str) : bool :=
  match a, b with
  | [], [] => true
  | x :: a', y :: b' => Ascii.eqb x y && str_eqb a' b'
  | _, _ => false
  end.

(** JavaScript truthiness of a string: every string but the empty one. *)
Definition truthy (s : str) : bool :=
  match s with [] => false | _ :: _ => true end.

(** [s.startsWith(p)] *)
Fixpoint startsWith (s p : str) {struct p} : bool :=
  match p, s with
  | [], _ => true
  | x :: p', y :: s' => Ascii.eqb x y && startsWith s' p'
  | _ :: _, [] => false
  end.

(** [s.endsWith(p)] *)
Definition endsWith (s p : str) : bool :=
  startsWith (rev s) (rev p).

(** [s.slice(n)] for [0 <= n] *)
Definition slice_from (n : nat) (s : str) : str := skipn n s.

(** [s.lastIndexOf(c)], [-1] when [c] does not occur. *)
Fixpoint lastIndexOf_from (i : Z) (c : ascii) (s : str) : Z :=
  match s with
  | [] => (-1)%Z
  | x :: s' =>
      let r := lastIndexOf_from (i + 1) c s' in
      if (0 <=? r)%Z then r else if Ascii.eqb x c then i else (-1)%Z
  end.

Definition lastIndexOf (c : ascii) (s : str) : Z := lastIndexOf_from 0 c s.

(** [s.slice(0, e)]: a negative [e] counts from the end of [s]. *)
Definition slice_to (e : Z) (s : str) : str :=
  if (e <? 0)%Z
  then firstn (Z.to_nat (Z.of_nat (length s) + e)) s
  else firstn (Z.to_nat e) s.

(** [s.split(c)] for a one-character separator: never the empty list. *)
Fixpoint split (c : ascii) (s : str) : list str :=
  match s with
  | [] => [[]]
  | x :: s' =>
      if Ascii.eqb x c then [] :: split c s'
      else match split c s' with
           | [] => [[x]]
           | p :: ps => (x :: p) :: ps
           end
  end.

(** [parts.join(c)] *)
Fixpoint join (c : ascii) (parts : list str) : str :=
  match parts with
  | [] => []
  | [p] => p
  | p :: ps => p ++ c :: join c ps
  end.

(** ** Character classes *)

Definition in_range (lo hi c : ascii) : bool :=
  Nat.leb (nat_of_ascii lo) (nat_of_ascii c) && Nat.leb (nat_of_ascii c) (nat_of_ascii hi).

Definition is_digit (c : ascii) : bool := in_range "0" "9" c.

(** [[a-zA-Z_]] *)
Definition is_ident_start (c : ascii) : bool :=
  in_range "a" "z" c || in_range "A" "Z" c || Ascii.eqb c "_".

(** [\w] *)
Definition is_word (c : ascii) : bool := is_ident_start c || is_digit c.

(** The characters of the class [[.+?^${}()|[\]\\]]. *)
Definition is_escaped_char (c : ascii) : bool :=
  existsb (Ascii.eqb c) ".+?^${}()|[]\".

(** The syntax characters of an ECMAScript pattern. *)
Definition is_syntax_char (c : ascii) : bool :=
  existsb (Ascii.eqb c) "^$\.*+?()[]{}|".

(** Line terminators, which [.] does not match (LF and CR among the 8-bit
    characters). *)
Definition is_line_terminator (c : ascii) : bool :=
  Ascii.eqb c "010" || Ascii.eqb c "013".

(** ** Exceptions *)

Inductive exn :=
| SyntaxError        (* thrown by [new RegExp] *)
| TypeError          (* thrown by [new URL] *)
| OutsideFragment.   (* a pattern the regular-expression model does not cover *)

Inductive result (A : Type) :=
| Ok (a : A)
| Throw (e : exn).
Arguments Ok {A} a.
Arguments Throw {A} e.

Definition bind {A B} (m : result A) (k : A -> result B) : result B :=
  match m with
  | Ok a => k a
  | Throw e => Throw e
  end.

Notation "x <- m ;; k" := (bind m (fun x => k))
  (at level 61, m at next level, right associativity).

Fixpoint mapM {A B} (f : A -> result B) (l : list A) : result (list B) :=
  match l with
  | [] => Ok []
  | a :: l' => b <- f a ;; bs <- mapM f l' ;; Ok (b :: bs)
  end.

(** ** Regular expressions

    The plugin builds its regular expressions as strings and hands them to
    [new RegExp].  The constructor is modelled by a parser for a fragment of
    the ECMAScript pattern syntax that covers every string the plugin can
    build: pattern characters, identity escapes of syntax characters, [\b],
    [^], [$], [.], classes over listed characters, the greedy quantifiers
    [*] and [+] on one-character atoms, and named groups that are not
    nested.  A pattern outside the fragment yields [OutsideFragment]. *)

Inductive cset :=
| CAny                                    (* [.] *)
| CChar (c : ascii)                       (* a pattern character *)
| CClass (neg : bool) (cs : list ascii).  (* [[...]] or [[^...]] *)

Inductive re :=
| Eps
| Chr (m : cset)
| Star (m : cset)                (* greedy [m*] *)
| Plus (m : cset)                (* greedy [m+] *)
| Bol                            (* [^] *)
| Eol                            (* [$] *)
| WordB                          (* [\b] *)
| Cat (r1 r2 : re)
| Group (name : str) (r : re).   (* [(?<name>r)] *)

Definition seq (terms : list re) : re := fold_right Cat Eps terms.

Inductive pmode :=
| PTop
| PEscape                           (* after a backslash *)
| PGroup1                           (* after an opening parenthesis *)
| PGroup2                           (* after [(?] *)
| PName (acc : str)                 (* after [(?<], reading the group name *)
| PClass0                           (* after an opening bracket *)
| PClass (neg : bool) (acc : list ascii).

Record pstate := {
  p_mode : pmode;
  p_terms : list re;                 (* terms of the current sequence, latest first *)
  p_open : option (str * list re);   (* the open group: its name, the terms before it *)
  p_names : list str                 (* the group names met so far *)
}.

Definition p_init : pstate :=
  {| p_mode := PTop; p_terms := []; p_open := None; p_names := [] |}.

Definition set_mode (m : pmode) (st : pstate) : pstate :=
  {| p_mode := m; p_terms := p_terms st; p_open := p_open st;
     p_names := p_names st |}.

Definition push (t : re) (st : pstate) : pstate :=
  {| p_mode := PTop; p_terms := t :: p_terms st; p_open := p_open st;
     p_names := p_names st |}.

Definition quantify (q : cset -> re) (st : pstate) : result pstate :=
  match p_terms st with
  | Chr m :: ts =>
      Ok {| p_mode := PTop; p_terms := q m :: ts; p_open := p_open st;
            p_names := p_names st |}
  | [] => Throw SyntaxError            (* nothing to repeat *)
  | _ :: _ => Throw OutsideFragment
  end.

Definition close_group (st : pstate) : result pstate :=
  match p_open st with
  | Some (name, before) =>
      Ok {| p_mode := PTop;
            p_terms := Group name (seq (rev (p_terms st))) :: before;
            p_open := None; p_names := p_names st |}
  | None => Throw SyntaxError          (* unmatched parenthesis *)
  end.

(** A group name is an identifier: [$], [_] or a letter, then those or digits. *)
Definition is_group_name (n : str) : bool :=
  match n with
  | [] => false
  | c :: n' =>
      (is_ident_start c || Ascii.eqb c "$")
      && forallb (fun x => is_word x || Ascii.eqb x "$") n'
  end.

Definition open_group (name : str) (st : pstate) : result pstate :=
  if negb (is_group_name name) then Throw SyntaxError   (* invalid group name *)
  else if existsb (str_eqb name) (p_names st)
  then Throw SyntaxError                                (* duplicate group name *)
  else match p_open st with
       | Some _ => Throw OutsideFragment                (* nested group *)
       | None =>
           Ok {| p_mode := PTop; p_terms := [];
                 p_open := Some (name, p_terms st);
                 p_names := p_names st ++ [name] |}
       end.

Definition parse_char (st : pstate) (c : ascii) : result pstate :=
  match p_mode st with
  | PTop =>
      if Ascii.eqb c "\" then Ok (set_mode PEscape st)
      else if Ascii.eqb c "^" then Ok (push Bol st)
      else if Ascii.eqb c "$" then Ok (push Eol st)
      else if Ascii.eqb c "." then Ok (push (Chr CAny) st)
      else if Ascii.eqb c "*" then quantify Star st
      else if Ascii.eqb c "+" then quantify Plus st
      else if Ascii.eqb c "(" then Ok (set_mode PGroup1 st)
      else if Ascii.eqb c ")" then close_group st
      else if Ascii.eqb c "[" then Ok (set_mode PClass0 st)
      else if is_syntax_char c then Throw OutsideFragment
      else Ok (push (Chr (CChar c)) st)
  | PEscape =>
      if is_syntax_char c || Ascii.eqb c "/" then Ok (push (Chr (CChar c)) st)
      else if Ascii.eqb c "b" then Ok (push WordB st)
      else Throw OutsideFragment
  | PGroup1 =>
      if Ascii.eqb c "?" then Ok (set_mode PGroup2 st)
      else Throw OutsideFragment
  | PGroup2 =>
      if Ascii.eqb c "<" then Ok (set_mode (PName []) st)
      else Throw OutsideFragment
  | PName acc =>
      if Ascii.eqb c ">" then open_group acc st
      else Ok (set_mode (PName (acc ++ [c])) st)
  | PClass0 =>
      if Ascii.eqb c "^" then Ok (set_mode (PClass true []) st)
      else if Ascii.eqb c "]" then Ok (push (Chr (CClass false [])) st)
      else if Ascii.eqb c "\" || Ascii.eqb c "-" then Throw OutsideFragment
      else Ok (set_mode (PClass false [c]) st)
  | PClass neg acc =>
      if Ascii.eqb c "]" then Ok (push (Chr (CClass neg acc)) st)
      else if Ascii.eqb c "\" || Ascii.eqb c "-" then Throw OutsideFragment
      else Ok (set_mode (PClass neg (acc ++ [c])) st)
  end.

Fixpoint parse_from (st : pstate) (source : str) : result pstate :=
  match source with
  | [] => Ok st
  | c :: source' => st' <- parse_char st c ;; parse_from st' source'
  end.

Definition parse_end (st : pstate) : result re :=
  match p_mode st, p_open st with
  | PTop, None => Ok (seq (rev (p_terms st)))
  | _, _ => Throw SyntaxError          (* unterminated escape, group or class *)
  end.

Fixpoint has_group (r : re) : bool :=
  match r with
  | Cat r1 r2 => has_group r1 || has_group r2
  | Group _ _ => true
  | _ => false
  end.

Record RegExp := { rx_re : re; rx_global : bool }.

(** [new RegExp(source, flags)], for [flags] empty or ['g'] *)
Definition RegExp_new (source flags : str) : result RegExp :=
  st <- parse_from p_init source ;;
  r <- parse_end st ;;
  if str_eqb flags "" then Ok {| rx_re := r; rx_global := false |}
  else if str_eqb flags "g" then Ok {| rx_re := r; rx_global := true |}
  else Throw OutsideFragment.

(** *** Matching

    A backtracking matcher: [run r st] lists the states in which a match of
    [r] started in [st] can end, in the order in which the ECMAScript
    matcher tries them, so that the head of the list is the match found. *)

Record mstate := {
  m_prev : option ascii;        (* the character before the current position *)
  m_rest : str;                 (* the input from the current position on *)
  m_caps : list (str * str)     (* the named captures, in group order *)
}.

Definition accepts (m : cset) (c : ascii) : bool :=
  match m with
  | CAny => negb (is_line_terminator c)
  | CChar x => Ascii.eqb x c
  | CClass neg cs => xorb neg (existsb (Ascii.eqb c) cs)
  end.

Definition move (p : option ascii) (s : str) (st : mstate) : mstate :=
  {| m_prev := p; m_rest := s; m_caps := m_caps st |}.

(** The positions a greedy repetition of [m] can stop at, longest first. *)
Fixpoint greedy (m : cset) (p : option ascii) (s : str)
  : list (option ascii * str) :=
  match s with
  | [] => [(p, [])]
  | c :: s' =>
      if accepts m c then greedy m (Some c) s' ++ [(p, s)] else [(p, s)]
  end.

Definition is_word_opt (c : option ascii) : bool :=
  match c with Some x => is_word x | None => false end.

Definition capture (name : str) (from to : mstate) : mstate :=
  {| m_prev := m_prev to; m_rest := m_rest to;
     m_caps := m_caps to
       ++ [(name, firstn (length (m_rest from) - length (m_rest to))
                         (m_rest from))] |}.

Fixpoint run (r : re) (st : mstate) : list mstate :=
  match r with
  | Eps => [st]
  | Chr m =>
      match m_rest st with
      | c :: s' => if accepts m c then [move (Some c) s' st] else []
      | [] => []
      end
  | Star m =>
      map (fun ps => move (fst ps) (snd ps) st)
          (greedy m (m_prev st) (m_rest st))
  | Plus m =>
      match m_rest st with
      | c :: s' =>
          if accepts m c
          then map (fun ps => move (fst ps) (snd ps) st) (greedy m (Some c) s')
          else []
      | [] => []
      end
  | Bol => match m_prev st with None => [st] | Some _ => [] end
  | Eol => match m_rest st with [] => [st] | _ :: _ => [] end
  | WordB =>
      if xorb (is_word_opt (m_prev st)) (is_word_opt (hd_error (m_rest st)))
      then [st] else []
  | Cat r1 r2 => flat_map (run r2) (run r1 st)
  | Group name r1 => map (capture name st) (run r1 st)
  end.

Record MatchResult := {
  mr_index : nat;               (* [match.index] *)
  mr_text : str;                (* [match[0]] *)
  mr_groups : list (str * str)  (* [Object.entries(match.groups)] *)
}.

(** The first match starting at or after the current position. *)
Fixpoint exec_from (r : re) (index : nat) (p : option ascii) (s : str)
  : option MatchResult :=
  match run r {| m_prev := p; m_rest := s; m_caps := [] |} with
  | st' :: _ =>
      Some {| mr_index := index;
              mr_text := firstn (length s - length (m_rest st')) s;
              mr_groups := m_caps st' |}
  | [] =>
      match s with
      | [] => None
      | c :: s' => exec_from r (S index) (Some c) s'
      end
  end.

(** [s.match(rx)] for a regular expression without the [g] flag *)
Definition String_match (s : str) (rx : RegExp) : result (option MatchResult) :=
  if rx_global rx then Throw OutsideFragment
  else Ok (exec_from (rx_re rx) 0 None s).

(** The expansion of a replacement string, for a regular expression without
    capture groups: [$$], [$&], [$`] and [$'] are expanded, any other [$]
    stands for itself. *)
Fixpoint GetSubstitution (matched before after replacement : str) : str :=
  match replacement with
  | [] => []
  | d :: r1 =>
      if Ascii.eqb d "$" then
        match r1 with
        | [] => [d]
        | c :: r2 =>
            if Ascii.eqb c "$" then
              d :: GetSubstitution matched before after r2
            else if Ascii.eqb c "&" then
              matched ++ GetSubstitution matched before after r2
            else if Ascii.eqb c "`" then
              before ++ GetSubstitution matched before after r2
            else if Ascii.eqb c "'" then
              after ++ GetSubstitution matched before after r2
            else d :: GetSubstitution matched before after r1
        end
      else d :: GetSubstitution matched before after r1
  end.

(** The scan of [String.prototype.replace]: [skip] characters still belong
    to the last match; [active] is off once a regular expression without
    the [g] flag has matched. *)
Fixpoint replace_from (r : re) (global : bool) (replacement whole : str)
    (pos : nat) (p : option ascii) (s : str) (skip : nat) (active : bool)
  : str :=
  let found :=
    match skip, active with
    | O, true =>
        match run r {| m_prev := p; m_rest := s; m_caps := [] |} with
        | st' :: _ => Some (length s - length (m_rest st'))
        | [] => None
        end
    | _, _ => None
    end in
  match found with
  | Some len =>
      let sub := GetSubstitution (firstn len s) (firstn pos whole)
                                 (skipn (pos + len) whole) replacement in
      match s with
      | [] => sub
      | c :: s' =>
          match len with
          | O => sub ++ c :: replace_from r global replacement whole
                                (S pos) (Some c) s' 0 global
          | S k => sub ++ replace_from r global replacement whole
                                (S pos) (Some c) s' k global
          end
      end
  | None =>
      match s with
      | [] => []
      | c :: s' =>
          match skip with
          | O => c :: replace_from r global replacement whole
                                   (S pos) (Some c) s' 0 active
          | S k => replace_from r global replacement whole
                                (S pos) (Some c) s' k active
          end
      end
  end.

(** [s.replace(rx, replacement)] for a regular expression without groups *)
Definition String_replace (s : str) (rx : RegExp) (replacement : str)
  : result str :=
  if has_group (rx_re rx) then Throw OutsideFragment
  else Ok (replace_from (rx_re rx) (rx_global rx) replacement s 0 None s 0 true).

(** ** Pattern compilation

    The body of the [map] over [Object.entries(options.redirects || {})]. *)

(** [pattern.replace(/[.+?^${}()|[\]\\]/g, '\\$&')] *)
Definition escape (pattern : str) : str :=
  flat_map (fun c => if is_escaped_char c then ["\"%char; c] else [c]) pattern.

(** What the loop over [tokenRegex.exec(escaped)] sees: the successive
    matches of the regular expression (a star, or a colon, a character of
    [[a-zA-Z_]] and a greedy run of [\w]) and the characters between them. *)
Inductive token :=
| Text (c : ascii)            (* a character of [escaped.slice(lastIndex, index)] *)
| Splat                       (* a match of the first group, a star *)
| Placeholder (name : str).   (* a match of the second group, [placeholder.slice(1)] *)

(** [name] is [Some n] while the scan is inside a placeholder whose name
    starts with [n]: [\w*] is greedy, so the match goes on as long as word
    characters follow. *)
Fixpoint tokenRegex_scan (name : option str) (s : str) : list token :=
  match s with
  | [] =>
      match name with
      | Some n => [Placeholder n]
      | None => []
      end
  | c :: s' =>
      let here :=
        if Ascii.eqb c "*" then Splat :: tokenRegex_scan None s'
        else
          match s' with
          | c2 :: s'' =>
              if Ascii.eqb c ":" && is_ident_start c2
              then tokenRegex_scan (Some [c2]) s''
              else Text c :: tokenRegex_scan None s'
          | [] => Text c :: tokenRegex_scan None s'
          end in
      match name with
      | Some n =>
          if is_word c then tokenRegex_scan (Some (n ++ [c])) s'
          else Placeholder n :: here
      | None => here
      end
  end.

Definition tokens (escaped : str) : list token := tokenRegex_scan None escaped.

(** What one round of the loop appends to [regexStr]. *)
Definition piece (t : token) : str :=
  match t with
  | Text c => [c]
  | Splat => "(?<splat>.*)"
  | Placeholder name => "(?<" ++ name ++ ">[^/]+)"
  end.

Definition regexStr (pattern : str) : str :=
  "^" ++ concat (map piece (tokens (escape pattern))) ++ "$".

(** A compiled redirect: the closure over [regex] and [target]. *)
Record Matcher := { regex : RegExp; target : str }.

Definition compile (pattern target : str) : result Matcher :=
  regex <- RegExp_new (regexStr pattern) "" ;;
  Ok {| regex := regex; target := target |}.

(** ** Paths

    [path.posix.normalize] and [path.posix.join] of Node, on path segments:
    empty and [.] segments are dropped, a [..] segment removes the segment
    before it when there is one that is not itself [..]. *)

Fixpoint normalizeSegments (allowAboveRoot : bool) (res segs : list str)
  : list str :=
  match segs with
  | [] => rev res
  | seg :: segs' =>
      if str_eqb seg "" || str_eqb seg "." then
        normalizeSegments allowAboveRoot res segs'
      else if str_eqb seg ".." then
        match res with
        | last :: res' =>
            if str_eqb last ".." then
              normalizeSegments allowAboveRoot
                (if allowAboveRoot then seg :: res else res) segs'
            else normalizeSegments allowAboveRoot res' segs'
        | [] =>
            normalizeSegments allowAboveRoot
              (if allowAboveRoot then [seg] else []) segs'
        end
      else normalizeSegments allowAboveRoot (seg :: res) segs'
  end.

Definition normalizeString (path : str) (allowAboveRoot : bool) : str :=
  join "/" (normalizeSegments allowAboveRoot [] (split "/" path)).

Definition path_normalize (path : str) : str :=
  match path with
  | [] => "."
  | _ :: _ =>
      let isAbsolute := startsWith path "/" in
      let trailingSeparator := endsWith path "/" in
      let p := normalizeString path (negb isAbsolute) in
      match p with
      | [] =>
          if isAbsolute then "/"
          else if trailingSeparator then "./" else "."
      | _ :: _ =>
          let p' := if trailingSeparator then p ++ "/" else p in
          if isAbsolute then "/" ++ p' else p'
      end
  end.

(** [path.join(...args)] *)
Definition path_join (args : list str) : str :=
  match filter truthy args with
  | [] => "."
  | parts => path_normalize (join "/" parts)
  end.

(** Vite's [normalizePath], on a POSIX host *)
Definition normalizePath (id : str) : str := path_normalize id.

(** [s.replace(/(^\/|\/$)/g, '')]: one leading and one trailing slash go. *)
Definition trim_slashes (s : str) : str :=
  let s1 := if startsWith s "/" then slice_from 1 s else s in
  if endsWith s1 "/" then firstn (length s1 - 1) s1 else s1.

(** [s.replace(/\.html$/, '')] *)
Definition strip_html (s : str) : str :=
  if endsWith s ".html" then firstn (length s - 5) s else s.

(** ** The plugin *)

Record Options := {
  opt_pagesRoot : option str;           (* [options.pagesRoot] *)
  opt_redirects : list (str * str)      (* [Object.entries(options.redirects || {})] *)
}.

(** What the closures of [viteMultiSpa] share once the options are read. *)
Record Plugin := {
  pagesRoot : str;
  redirects : list Matcher
}.

Definition viteMultiSpa (options : Options) : result Plugin :=
  let pagesRoot :=
    match opt_pagesRoot options with
    | Some p => if truthy p then trim_slashes (normalizePath p) else "src/pages"
    | None => "src/pages"
    end in
  redirects <- mapM (fun e => compile (fst e) (snd e)) (opt_redirects options) ;;
  Ok {| pagesRoot := pagesRoot; redirects := redirects |}.

Fixpoint foldM {A B} (f : A -> B -> result A) (l : list B) (a : A) : result A :=
  match l with
  | [] => Ok a
  | b :: l' => a' <- f a b ;; foldM f l' a'
  end.

(** The closure [(url: string) => ...] returned for one redirect entry. *)
Definition Matcher_call (m : Matcher) (url : str) : result (option str) :=
  found <- String_match url (regex m) ;;
  match found with
  | None => Ok None
  | Some mr =>
      result <-
        foldM (fun result entry =>
                 rx <- RegExp_new (":" ++ fst entry ++ "\b") "g" ;;
                 String_replace result rx (snd entry))
              (mr_groups mr) (target m) ;;
      Ok (Some (normalizePath result))
  end.

Record Request := {
  url : str;                     (* [req.url] *)
  originalUrl : option str;      (* [req.originalUrl] *)
  sec_fetch_dest : option str;   (* [req.headers['sec-fetch-dest']] *)
  referer : option str           (* [req.headers['referer']] *)
}.

Inductive FileType := asset | chunk.

Record OutputFile := { type : FileType; fileName : str }.

Section Hooks.

(** The host: the file system and the URL parser. *)
Variable existsSync : str -> bool.            (* [fs.existsSync] *)
Variable globSync : str -> list str.          (* [fs.globSync] *)
Variable path_relative : str -> str -> str.   (* [path.relative] *)
Variable URL_pathname : str -> result str.    (* [new URL(s).pathname] *)

Variable root : str.                          (* set by [configResolved] *)
Variable plugin : Plugin.

Definition resolvePageUrl (url : str) : option str :=
  let pageURL := "/" ++ pagesRoot plugin ++ url in
  if endsWith pageURL "/" then
    let pageFile := path_join [root; pageURL; lit "index.html"] in
    if existsSync pageFile then Some pageURL else None
  else
    let pageFile := path_join [root; pageURL ++ ".html"] in
    if existsSync pageFile then Some pageURL else None.

Fixpoint resolveRedirect_from (rules : list Matcher) (url : str)
  : result (option str) :=
  match rules with
  | [] => Ok None
  | m :: rules' =>
      t <- Matcher_call m url ;;
      match t with
      | Some target =>
          if truthy target then
            let pageUrl :=
              if startsWith target "/" then target else "/" ++ target in
            Ok (resolvePageUrl (strip_html pageUrl))
          else resolveRedirect_from rules' url
      | None => resolveRedirect_from rules' url
      end
  end.

Definition resolveRedirect (url : str) : result (option str) :=
  resolveRedirect_from (redirects plugin) url.

Definition is_truthy (h : option str) : bool :=
  match h with Some s => truthy s | None => false end.

Definition rewrite (req : Request) (new_url : str) : Request :=
  {| url := new_url; originalUrl := None;
     sec_fetch_dest := sec_fetch_dest req; referer := referer req |}.

(** The middleware registered by [configureServer]; the result is the
    request handed to [next()]. *)
Definition middleware (req : Request) : result Request :=
  let parts := split "?" (url req) in
  let url := nth 0 parts [] in
  let query := nth 1 parts [] in
  let suffix := if truthy query then "?" ++ query else [] in
  match sec_fetch_dest req with
  | Some secFetchDest =>
      if str_eqb secFetchDest "document" then
        redirectUrl <- resolveRedirect url ;;
        match redirectUrl with
        | Some redirectUrl => Ok (rewrite req (redirectUrl ++ suffix))
        | None =>
            match resolvePageUrl url with
            | Some pageUrl => Ok (rewrite req (pageUrl ++ suffix))
            | None => Ok req
            end
        end
      else if truthy secFetchDest && is_truthy (referer req) then
        if startsWith url "/@vite/" then Ok req
        else
          pathname <- URL_pathname (match referer req with
                                    | Some r => r | None => [] end) ;;
          redirected <- resolveRedirect pathname ;;
          let pageUrl :=
            match redirected with
            | Some p => Some p
            | None => resolvePageUrl pathname
            end in
          match pageUrl with
          | Some pageUrl =>
              if negb (existsSync (path_join [root; url])) then
                let assetUrl :=
                  slice_to (lastIndexOf "/" pageUrl) pageUrl ++ url in
                if existsSync (path_join [root; assetUrl])
                then Ok (rewrite req (assetUrl ++ suffix))
                else Ok req
              else Ok req
          | None => Ok req
          end
      else Ok req
  | None => Ok req
  end.

(** [buildStart]: [emitted] collects the calls of [this.emitFile], each a
    chunk with the given [id]. *)
Definition buildStart (environment : str) (emitted : list str) : list str :=
  if negb (str_eqb environment "client") then emitted
  else
    emitted ++
    map (fun file => path_relative root file)
        (globSync (path_join [root; pagesRoot plugin ++ "/**/*.html"])).

Definition flatten (file : OutputFile) : OutputFile :=
  match type file with
  | asset =>
      if startsWith (fileName file) (pagesRoot plugin ++ "/")
      then {| type := asset;
              fileName := slice_from (length (pagesRoot plugin) + 1)
                                     (fileName file) |}
      else file
  | chunk => file
  end.

(** [generateBundle]: the bundle as the list of its entries, in the order
    of [for (const filename in bundle)]. *)
Definition generateBundle (environment : str)
    (bundle : list (str * OutputFile)) : list (str * OutputFile) :=
  if negb (str_eqb environment "client") then bundle
  else map (fun entry => (fst entry, flatten (snd entry))) bundle.

End Hooks.

(** ** Specification vocabulary *)

(** What the flattener does to one entry [e] of the bundle, giving [e']:
    either [e] is an asset whose path is [<pagesRoot>/] followed by the path
    of [e'], or [e] is a chunk or lies elsewhere and is kept as it is. *)
Definition flattened (plugin : Plugin) (e e' : str * OutputFile) : Prop :=
  fst e' = fst e /\
  type (snd e') = type (snd e) /\
  ((type (snd e) = asset /\
    fileName (snd e) = (pagesRoot plugin ++ "/") ++ fileName (snd e') /\
    length (fileName (snd e))
    = length (pagesRoot plugin) + 1 + length (fileName (snd e')))
   \/
   ((type (snd e) = chunk
     \/ startsWith (fileName (snd e)) (pagesRoot plugin ++ "/") = false) /\
    snd e' = snd e)).

(** No asset of the bundle is under the pages root (any more). *)
Definition settled (plugin : Plugin) (bundle : list (str * OutputFile)) : Prop :=
  forall e, In e bundle ->
    type (snd e) = asset ->
    startsWith (fileName (snd e)) (pagesRoot plugin ++ "/") = false.

(** *** Redirect patterns

    The reading of a pattern the specification gives: its tokens, the
    regular expression each token stands for, and the paths it matches. *)

(** [escaped] is tokenised by the plugin; the tokens of the pattern itself
    are the same with every escaped character back to one [Text]. *)
Definition escape_token (t : token) : list token :=
  match t with
  | Text c => if is_escaped_char c then [Text "\"; Text c] else [Text c]
  | _ => [t]
  end.

Definition starts_ident (s : str) : bool :=
  match s with
  | c :: _ => is_ident_start c
  | [] => false
  end.

(** A pattern without special tokens: no star, and no colon followed by a
    character of [[a-zA-Z_]]. *)
Fixpoint plain (pattern : str) : bool :=
  match pattern with
  | [] => true
  | c :: pattern' =>
      negb (Ascii.eqb c "*")
      && negb (Ascii.eqb c ":" && starts_ident pattern')
      && plain pattern'
  end.

(** [[a-zA-Z_]\w*] *)
Definition is_ident (n : str) : bool :=
  match n with
  | [] => false
  | c :: n' => is_ident_start c && forallb is_word n'
  end.

Definition wf_token (t : token) : Prop :=
  match t with
  | Text c => Ascii.eqb c "*" = false
  | Splat => True
  | Placeholder n => is_ident n = true
  end.

(** The term of the regular expression a token compiles to. *)
Definition term_of (t : token) : re :=
  match t with
  | Text c => Chr (CChar c)
  | Splat => Group "splat" (Cat (Star CAny) Eps)
  | Placeholder n => Group n (Cat (Plus (CClass true ["/"%char])) Eps)
  end.

(** The names of the groups of a pattern, in order. *)
Fixpoint names (toks : list token) : list str :=
  match toks with
  | [] => []
  | Text _ :: toks' => names toks'
  | Splat :: toks' => lit "splat" :: names toks'
  | Placeholder n :: toks' => n :: names toks'
  end.

(** No name of [l] is in [seen] or occurs twice in [l]. *)
Fixpoint fresh_names (seen l : list str) : bool :=
  match l with
  | [] => true
  | n :: l' =>
      negb (existsb (str_eqb n) seen) && fresh_names (seen ++ [n]) l'
  end.

Definition splats (toks : list token) : nat :=
  length (filter (fun t => match t with Splat => true | _ => false end) toks).

(** The regular expression of a pattern with the tokens [toks]. *)
Definition pattern_re (toks : list token) : re :=
  seq (Bol :: map term_of toks ++ [Eol]).

(** [parses toks path caps]: [path] is, token by token, a character for a
    [Text], a run without line terminators for a [Splat] and a non-empty
    run without slash for a [Placeholder]; [caps] lists the runs under the
    names of their tokens. *)
Inductive parses : list token -> str -> list (str * str) -> Prop :=
| parses_nil : parses [] [] []
| parses_text c toks s caps :
    parses toks s caps -> parses (Text c :: toks) (c :: s) caps
| parses_splat v toks s caps :
    forallb (fun c => negb (is_line_terminator c)) v = true ->
    parses toks s caps ->
    parses (Splat :: toks) (v ++ s) ((lit "splat", v) :: caps)
| parses_placeholder n v toks s caps :
    v <> [] ->
    forallb (fun c => negb (Ascii.eqb c "/")) v = true ->
    parses toks s caps ->
    parses (Placeholder n :: toks) (v ++ s) ((n, v) :: caps).

(** A pattern whose captures are determined by the path: no star, and a
    slash or the end of the pattern after every placeholder. *)
Fixpoint separated (toks : list token) : bool :=
  match toks with
  | [] => true
  | Text _ :: toks' => separated toks'
  | Splat :: _ => false
  | Placeholder _ :: toks' =>
      match toks' with
      | [] => true
      | Text c :: _ => Ascii.eqb c "/" && separated toks'
      | _ => false
      end
  end.

(** The parser between two terms, outside every group. *)
Definition top (terms : list re) (seen : list str) : pstate :=
  {| p_mode := PTop; p_terms := terms; p_open := None; p_names := seen |}.

(** What the scan may carry as the name read so far. *)
Definition name_ok (name : option str) (s : str) : Prop :=
  match name with
  | None => True
  | Some n => is_ident n = true \/ (n = [] /\ starts_ident s = true)
  end.

(** The character before the position reached after reading [v]. *)
Fixpoint last_prev (p : option ascii) (v : str) : option ascii :=
  match v with
  | [] => p
  | c :: v' => last_prev (Some c) v'
  end.

(** The state of the matcher after it has read [v] and captured it under
    the name [n]. *)
Definition captured (n v s' : str) (st : mstate) : mstate :=
  {| m_prev := last_prev (m_prev st) v; m_rest := s';
     m_caps := m_caps st ++ [(n, v)] |}.

(** The regular expression [new RegExp(`:${name}\\b`, 'g')] stands for. *)
Definition placeholder_re (name : str) : re :=
  seq (Chr (CChar ":") :: map (fun c => Chr (CChar c)) name ++ [WordB]).

(** The page a redirect target [t] stands for: the leading slash is added
    when missing, a trailing [.html] is removed, and the Page Resolver has
    the last word. *)
Definition redirect_page (existsSync : str -> bool) (root : str)
    (plugin : Plugin) (t : str) : option str :=
  resolvePageUrl existsSync root plugin
    (strip_html (if startsWith t "/" then t else "/" ++ t)).

(** The path of a request, [url] in the middleware: what comes before the
    first question mark of [req.url]. *)
Definition request_path (req : Request) : str :=
  nth 0 (split "?" (url req)) [].

(** The query of a request as the middleware reads it, [query]. *)
Definition request_query (req : Request) : str :=
  nth 1 (split "?" (url req)) [].

(** What the middleware appends to a rewritten path. *)
Definition query_suffix (req : Request) : str :=
  if truthy (request_query req) then "?" ++ request_query req else [].

(** The original query string of a request: all that follows the first
    question mark of [req.url]. *)
Fixpoint query_string (u : str) : str :=
  match u with
  | [] => []
  | c :: u' => if Ascii.eqb c "?" then u' else query_string u'
  end.

(** The directory of a page: everything before its last slash. *)
Definition page_directory (pageUrl : str) : str :=
  slice_to (lastIndexOf "/" pageUrl) pageUrl.

(** The page-relative location of the requested asset, [assetUrl]. *)
Definition asset_url (pageUrl : str) (req : Request) : str :=
  page_directory pageUrl ++ request_path req.

(** The page of the referring document: the Redirect Resolver first, the
    Page Resolver as fallback. *)
Definition referrer_page (existsSync : str -> bool) (root : str)
    (plugin : Plugin) (pathname : str) : result (option str) :=
  redirected <- resolveRedirect existsSync root plugin pathname ;;
  match redirected with
  | Some p => Ok (Some p)
  | None => Ok (resolvePageUrl existsSync root plugin pathname)
  end.

(** ** Sample configurations *)

(** The plugin with its default options. *)
Definition default_plugin : Plugin :=
  {| pagesRoot := "src/pages"; redirects := [] |}.

Definition entry (key : str) (ty : FileType) (name : str) : str * OutputFile :=
  (key, {| type := ty; fileName := name |}).

(** A project at [/app] with the given files. *)
Definition files_exist (files : list str) (file : str) : bool :=
  existsb (str_eqb file) files.

Definition relative_to (root file : str) : str :=
  if startsWith file (root ++ "/") then slice_from (length root + 1) file
  else file.

Definition no_matcher : Matcher :=
  {| regex := {| rx_re := Eps; rx_global := false |}; target := [] |}.

Definition compiled (pattern target : str) : Matcher :=
  match compile pattern target with
  | Ok m => m
  | Throw _ => no_matcher
  end.

Definition sample_options : Options :=
  {| opt_pagesRoot := None;
     opt_redirects := [(lit "/x/:id", lit "/x");
                       (lit "/a/:x", lit "/first");
                       (lit "/a/*", lit "/second")] |}.

Definition sample_plugin : Plugin :=
  {| pagesRoot := "src/pages";
     redirects := map (fun e => compiled (fst e) (snd e))
                      (opt_redirects sample_options) |}.

(** A URL parser that knows the origin [http://localhost] only. *)
Definition sample_pathname (href : str) : result str :=
  if startsWith href "http://localhost/"
  then Ok (slice_from 16 href)
  else Throw TypeError.

Definition document_request (u : str) : Request :=
  {| url := u; originalUrl := Some u;
     sec_fetch_dest := Some (lit "document"); referer := None |}.

Definition asset_request (u dest ref : str) : Request :=
  {| url := u; originalUrl := Some u;
     sec_fetch_dest := Some dest; referer := Some ref |}.

Definition user_options : Options :=
  {| opt_pagesRoot := None;
     opt_redirects := [(lit "/user/:id", lit "/user-page?id=:id")] |}.

Definition user_plugin : Plugin :=
  {| pagesRoot := "src/pages";
     redirects := [compiled "/user/:id" "/user-page?id=:id"] |}.

(** ** The rest of the plugin *)

(** [s.includes(sub)] *)
Fixpoint includes (s sub : str) : bool :=
  startsWith s sub
  || match s with
     | [] => false
     | _ :: s' => includes s' sub
     end.

Definition no_slash (s : str) : bool :=
  forallb (fun c => negb (Ascii.eqb c "/")) s.

Definition no_line_terminator (s : str) : bool :=
  forallb (fun c => negb (is_line_terminator c)) s.

(** [options.transformPageHtml]: absent, one hook, or an array of hooks. *)
Inductive TransformOption (Hook : Type) :=
| NoTransform
| OneTransform (h : Hook)
| ManyTransforms (hs : list Hook).
Arguments NoTransform {Hook}.
Arguments OneTransform {Hook} h.
Arguments ManyTransforms {Hook} hs.

(** [transforms]: the option as an array. *)
Definition transforms {Hook : Type} (o : TransformOption Hook) : list Hook :=
  match o with
  | ManyTransforms hs => hs
  | OneTransform h => [h]
  | NoTransform => []
  end.

(** [transformPagesOnly]: a hook takes the HTML and the path [ctx.path] of
    the document, with the rest of the context in [Ctx]; the wrapped hook
    returns [None] for [undefined]. *)
Definition transformPagesOnly {Ctx R : Type} (plugin : Plugin)
    (transform : str -> str -> Ctx -> R) (html path : str) (ctx : Ctx)
  : option R :=
  if startsWith path ("/" ++ pagesRoot plugin ++ "/")
     || str_eqb path "/index.html"
  then Some (transform html path ctx)
  else None.

(** One plugin of the array [viteMultiSpa] returns, as far as HTML
    transforms go. *)
Record PluginEntry (Handler : Type) := {
  plugin_name : str;
  transformIndexHtml : option Handler
}.
Arguments plugin_name {Handler} p.
Arguments transformIndexHtml {Handler} p.

(** The array returned by [viteMultiSpa]: [corePlugin], [buildPlugin] and
    one plugin for each transform after the first. *)
Definition plugins {Ctx R : Type} (plugin : Plugin)
    (ts : list (str -> str -> Ctx -> R))
  : list (PluginEntry (str -> str -> Ctx -> option R)) :=
  {| plugin_name := "vite-multi-spa";
     transformIndexHtml :=
       match ts with
       | t :: _ => Some (transformPagesOnly plugin t)
       | [] => None
       end |}
  :: {| plugin_name := "vite-multi-spa:build"; transformIndexHtml := None |}
  :: map (fun t => {| plugin_name := "vite-multi-spa:transform-html";
                      transformIndexHtml := Some (transformPagesOnly plugin t) |})
         (skipn 1 ts).

(** The handlers the host finds in an array of plugins, in order. *)
Definition handlers {Handler : Type} (ps : list (PluginEntry Handler))
  : list Handler :=
  flat_map (fun p => match transformIndexHtml p with
                     | Some h => [h]
                     | None => []
                     end) ps.

(** [resolveId]: [Some (id, importerFile)] stands for the call
    [this.resolve(id, importerFile, { skipSelf: true })] whose result is
    returned, [None] for [undefined]. *)
Definition resolveId (root : str) (plugin : Plugin) (id : str)
    (importer : option str) : result (option (str * str)) :=
  match importer with
  | None => Ok None
  | Some importer =>
      if negb (truthy importer) then Ok None
      else if negb (match importer with
                    | c :: _ => Ascii.eqb c "000"
                    | [] => false
                    end) then Ok None
      else if negb (includes importer "?html-proxy") then Ok None
      else
        rx <- RegExp_new "\?.*$" "" ;;
        stripped <- String_replace (slice_from 1 importer) rx "" ;;
        let importerFile := normalizePath stripped in
        if startsWith importerFile (root ++ "/" ++ pagesRoot plugin ++ "/")
        then Ok (Some (id, importerFile))
        else Ok None
  end.

(** The middleware of the plugin before the [redirects] option: no query
    is split off and the Page Resolver works alone. *)
Definition middleware_v1 (existsSync : str -> bool)
    (URL_pathname : str -> result str) (root : str) (plugin : Plugin)
    (req : Request) : result Request :=
  let url := url req in
  match sec_fetch_dest req with
  | Some secFetchDest =>
      if str_eqb secFetchDest "document" then
        match resolvePageUrl existsSync root plugin url with
        | Some pageUrl => Ok (rewrite req pageUrl)
        | None => Ok req
        end
      else if truthy secFetchDest && is_truthy (referer req) then
        if startsWith url "/@vite/" then Ok req
        else
          pathname <- URL_pathname (match referer req with
                                    | Some r => r | None => [] end) ;;
          match resolvePageUrl existsSync root plugin pathname with
          | Some pageUrl =>
              if negb (existsSync (path_join [root; url])) then
                let assetUrl :=
                  slice_to (lastIndexOf "/" pageUrl) pageUrl ++ url in
                if existsSync (path_join [root; assetUrl])
                then Ok (rewrite req assetUrl)
                else Ok req
              else Ok req
          | None => Ok req
          end
      else Ok req
  | None => Ok req
  end.

(** A path segment as [path.normalize] keeps it: not empty, no slash. *)
Definition is_segment (s : str) : Prop := s <> [] /\ no_slash s = true.

(** ** Requests and targets, read character by character *)

(** What comes before the first [c] of [s]. *)
Fixpoint before (c : ascii) (s : str) : str :=
  match s with
  | [] => []
  | x :: s' => if Ascii.eqb x c then [] else x :: before c s'
  end.

(** A query as it is appended to a path: nothing for the empty query. *)
Definition with_question_mark (q : str) : str :=
  match q with
  | [] => []
  | _ :: _ => "?"%char :: q
  end.

(** [t'] is [t] with a slash in front when [t] has none. *)
Definition slash_prefixed (t t' : str) : Prop :=
  ((exists r, t = "/"%char :: r) /\ t' = t)
  \/ ((forall r, t <> "/"%char :: r) /\ t' = "/"%char :: t).

(** [s] is [t'] without the [.html] it may end with. *)
Definition html_stripped (t' s : str) : Prop :=
  t' = s ++ ".html" \/ ((forall y, t' <> y ++ ".html") /\ s = t').

Definition html_options : Options :=
  {| opt_pagesRoot := None;
     opt_redirects := [(lit "/x/:id", lit "/x");
                       (lit "/a/:x", lit "p/:x.html");
                       (lit "/a/*", lit "/second")] |}.

Definition html_plugin : Plugin :=
  {| pagesRoot := "src/pages";
     redirects := map (fun e => compiled (fst e) (snd e))
                      (opt_redirects html_options) |}.

(** * Properties *)

(** ** Strings *)

Lemma str_eqb_eq (a b : str) : str_eqb a b = true <-> a = b.
Proof.
  revert b; induction a as [|x a IH]; intros [|y b]; simpl;
    try (split; [discriminate | discriminate]); try tauto.
  rewrite andb_true_iff, Ascii.eqb_eq, IH.
  split; [intros [-> ->]; reflexivity | intros [= -> ->]; auto].
Qed.


Lemma str_eqb_neq (a b : str) : str_eqb a b = false <-> a <> b.
Proof.
  rewrite <- str_eqb_eq. destruct (str_eqb a b); split; congruence.
Qed.

Lemma startsWith_prefix (s p : str) :
  startsWith s p = true <-> exists t, s = p ++ t.
Proof.
  revert s; induction p as [|x p IH]; intros s; simpl.
  - split; [exists s; reflexivity | reflexivity].
  - destruct s as [|y s].
    + split; [discriminate | intros [t [=]]].
    + rewrite andb_true_iff, Ascii.eqb_eq, IH. split.
      * intros [-> [t ->]]. exists t; reflexivity.
      * intros [t [= -> ->]]. split; [reflexivity | exists t; reflexivity].
Qed.

Lemma startsWith_app (p t : str) : startsWith (p ++ t) p = true.
Proof. apply startsWith_prefix. exists t; reflexivity. Qed.

Lemma slice_from_prefix (p t : str) : slice_from (length p) (p ++ t) = t.
Proof.
  unfold slice_from. induction p as [|x p IH]; simpl; auto.
Qed.


(** ** The Output Flattener *)

Section Flattening.

Variable plugin : Plugin.

Lemma prefix_length :
  length (pagesRoot plugin ++ "/") = length (pagesRoot plugin) + 1.
Proof. rewrite length_app. reflexivity. Qed.

(** An asset under the pages root loses exactly [<pagesRoot>/]. *)
Lemma flatten_asset_under (rest : str) :
  flatten plugin
    {| type := asset; fileName := (pagesRoot plugin ++ "/") ++ rest |}
  = {| type := asset; fileName := rest |}.
Proof.
  unfold flatten; simpl.
  rewrite startsWith_app, <- prefix_length, slice_from_prefix.
  reflexivity.
Qed.

Lemma flatten_elsewhere (f : OutputFile) :
  startsWith (fileName f) (pagesRoot plugin ++ "/") = false ->
  flatten plugin f = f.
Proof.
  intros H. unfold flatten. rewrite H.
  destruct (type f); reflexivity.
Qed.

Lemma flatten_chunk (f : OutputFile) :
  type f = chunk -> flatten plugin f = f.
Proof. intros H. unfold flatten. rewrite H. reflexivity. Qed.

Lemma flatten_type (f : OutputFile) : type (flatten plugin f) = type f.
Proof.
  unfold flatten. destruct (type f) eqn:E; auto.
  destruct (startsWith _ _); simpl; auto.
Qed.

Lemma flatten_flattened (e : str * OutputFile) :
  flattened plugin e (fst e, flatten plugin (snd e)).
Proof.
  destruct e as [k [ty name]]; unfold flattened; simpl.
  split; [reflexivity|]. split; [apply flatten_type|].
  destruct ty.
  - assert (D : startsWith name (pagesRoot plugin ++ "/") = true
                \/ startsWith name (pagesRoot plugin ++ "/") = false)
      by (destruct (startsWith name (pagesRoot plugin ++ "/")); auto).
    destruct D as [E|E].
    + left. apply startsWith_prefix in E. destruct E as [rest ->].
      rewrite flatten_asset_under; simpl.
      split; [reflexivity|]. split; [reflexivity|].
      rewrite !length_app. simpl. lia.
    + right. split; [right; exact E|].
      apply flatten_elsewhere; exact E.
  - right. split; [left; reflexivity | reflexivity].
Qed.

(** C5, as amended: in the client environment the flattener strips the
    prefix [<pagesRoot>/], that is [len(pagesRoot)+1] characters, from the
    output path of every asset that begins with it, and leaves alone every
    chunk and every entry whose path does not begin with it; the keys of
    the bundle and the order of its entries do not change. *)
Theorem generateBundle_flattens_assets (bundle : list (str * OutputFile)) :
  Forall2 (flattened plugin) bundle (generateBundle plugin "client" bundle).
Proof.
  unfold generateBundle. simpl.
  induction bundle as [|e bundle IH]; simpl; constructor; auto.
  apply flatten_flattened.
Qed.

(** Outside the client environment the bundle is not touched. *)
Lemma generateBundle_other_environment (environment : str) bundle :
  environment <> lit "client" ->
  generateBundle plugin environment bundle = bundle.
Proof.
  intros H. unfold generateBundle.
  apply str_eqb_neq in H. rewrite H. reflexivity.
Qed.

Lemma generateBundle_settled (environment : str) bundle :
  settled plugin bundle ->
  generateBundle plugin environment bundle = bundle.
Proof.
  intros H. unfold generateBundle.
  destruct (negb (str_eqb environment "client")); [reflexivity|].
  induction bundle as [|[k f] bundle IH]; simpl; [reflexivity|].
  rewrite IH by (intros e He; apply H; right; exact He).
  f_equal. f_equal.
  destruct (type f) eqn:T.
  - apply flatten_elsewhere. apply (H (k, f)); [left; reflexivity | exact T].
  - apply flatten_chunk; exact T.
Qed.

End Flattening.

(** C5, as stated, fails on a chunk: its output path begins with
    [<pagesRoot>/] and the flattener keeps it.  It fails as well outside
    the client environment, where even an asset keeps its path. *)
Lemma chunk_under_pages_root_is_kept :
  startsWith (lit "src/pages/contact.js") (pagesRoot default_plugin ++ "/")
  = true
  /\ generateBundle default_plugin "client"
       [entry "src/pages/contact.js" chunk "src/pages/contact.js"]
     = [entry "src/pages/contact.js" chunk "src/pages/contact.js"]
  /\ generateBundle default_plugin "client"
       [entry "src/pages/contact.js" chunk "src/pages/contact.js"]
     <> [entry "src/pages/contact.js" chunk "contact.js"]
  /\ generateBundle default_plugin "ssr"
       [entry "src/pages/contact.html" asset "src/pages/contact.html"]
     = [entry "src/pages/contact.html" asset "src/pages/contact.html"].
Proof. repeat split; try reflexivity. discriminate. Qed.

(** ** Building twice *)

Section BuildTwice.

Variable globSync : str -> list str.
Variable path_relative : str -> str -> str.
Variable root : str.
Variable plugin : Plugin.

Lemma buildStart_In (environment : str) (emitted : list str) (id : str) :
  In id (buildStart globSync path_relative root plugin environment
           (buildStart globSync path_relative root plugin environment emitted))
  <-> In id (buildStart globSync path_relative root plugin environment emitted).
Proof.
  unfold buildStart.
  destruct (negb (str_eqb environment "client")); [tauto|].
  rewrite !in_app_iff. tauto.
Qed.

(** C9, as amended: a second run of the Build Emitter registers the same
    set of entries as the first, and a second pass of the Output Flattener
    changes nothing provided no asset flattened by the first pass still
    has a path beginning with [<pagesRoot>/]. *)
Theorem build_twice_same_manifest (environment : str)
    (emitted : list str) (bundle : list (str * OutputFile)) :
  settled plugin (generateBundle plugin environment bundle) ->
  (forall id,
      In id (buildStart globSync path_relative root plugin environment
               (buildStart globSync path_relative root plugin environment
                  emitted))
      <-> In id (buildStart globSync path_relative root plugin environment
                   emitted))
  /\ generateBundle plugin environment
       (generateBundle plugin environment bundle)
     = generateBundle plugin environment bundle.
Proof.
  intros H. split.
  - intros id. apply buildStart_In.
  - apply generateBundle_settled. exact H.
Qed.

End BuildTwice.

Lemma build_twice_same_manifest_witness :
  (forall id,
      In id (buildStart (fun _ => [lit "/app/src/pages/contact.html"])
               relative_to "/app" default_plugin "client"
               (buildStart (fun _ => [lit "/app/src/pages/contact.html"])
                  relative_to "/app" default_plugin "client" []))
      <-> In id (buildStart (fun _ => [lit "/app/src/pages/contact.html"])
                   relative_to "/app" default_plugin "client" []))
  /\ generateBundle default_plugin "client"
       (generateBundle default_plugin "client"
          [entry "src/pages/contact.html" asset "src/pages/contact.html"])
     = generateBundle default_plugin "client"
         [entry "src/pages/contact.html" asset "src/pages/contact.html"].
Proof.
  apply (build_twice_same_manifest
           (fun _ => [lit "/app/src/pages/contact.html"]) relative_to
           "/app" default_plugin "client" []
           [entry "src/pages/contact.html" asset "src/pages/contact.html"]).
  intros e [<-|[]] _. reflexivity.
Defined.

(** C9, as stated, fails when a page lives in a directory named like the
    pages root: the flattened path [src/pages/x.html] is stripped again by a
    second pass. *)
Lemma second_flattening_pass_strips_again :
  generateBundle default_plugin "client"
    [entry "k" asset "src/pages/src/pages/x.html"]
  = [entry "k" asset "src/pages/x.html"]
  /\ generateBundle default_plugin "client"
       (generateBundle default_plugin "client"
          [entry "k" asset "src/pages/src/pages/x.html"])
     = [entry "k" asset "x.html"]
  /\ generateBundle default_plugin "client"
       (generateBundle default_plugin "client"
          [entry "k" asset "src/pages/src/pages/x.html"])
     <> generateBundle default_plugin "client"
          [entry "k" asset "src/pages/src/pages/x.html"].
Proof. repeat split; try reflexivity. discriminate. Qed.

(** ** The Redirect Resolver *)

Lemma path_normalize_truthy (path : str) : truthy (path_normalize path) = true.
Proof.
  unfold path_normalize. destruct path as [|c path]; [reflexivity|].
  destruct (normalizeString (c :: path) _) as [|x p].
  - destruct (startsWith _ _); [reflexivity|].
    destruct (endsWith _ _); reflexivity.
  - destruct (startsWith _ _); [reflexivity|].
    destruct (endsWith _ _); reflexivity.
Qed.

Lemma bind_Ok {A B} (m : result A) (k : A -> result B) (b : B) :
  bind m k = Ok b -> exists a, m = Ok a /\ k a = Ok b.
Proof. destruct m as [a|e]; simpl; [eauto | discriminate]. Qed.

(** A redirect that matches yields a non-empty target. *)
Lemma Matcher_call_truthy (m : Matcher) (url t : str) :
  Matcher_call m url = Ok (Some t) -> truthy t = true.
Proof.
  unfold Matcher_call. intros H.
  apply bind_Ok in H. destruct H as [[mr|] [_ H]]; [|discriminate].
  apply bind_Ok in H. destruct H as [r [_ H]].
  injection H as <-. apply path_normalize_truthy.
Qed.

Lemma mapM_Forall2 {A B} (f : A -> result B) (l : list A) (l' : list B) :
  mapM f l = Ok l' -> Forall2 (fun a b => f a = Ok b) l l'.
Proof.
  revert l'; induction l as [|a l IH]; simpl; intros l' H.
  - injection H as <-. constructor.
  - apply bind_Ok in H. destruct H as [b [Hb H]].
    apply bind_Ok in H. destruct H as [bs [Hbs H]].
    injection H as <-. constructor; auto.
Qed.

Section RedirectOrder.

Variable existsSync : str -> bool.
Variable root : str.
Variable plugin : Plugin.

Lemma resolveRedirect_from_skip (before after : list Matcher) (url : str) :
  Forall (fun m => Matcher_call m url = Ok None) before ->
  resolveRedirect_from existsSync root plugin (before ++ after) url
  = resolveRedirect_from existsSync root plugin after url.
Proof.
  induction 1 as [|m before Hm _ IH]; simpl; [reflexivity|].
  rewrite Hm. simpl. exact IH.
Qed.

Lemma resolveRedirect_from_hit (m : Matcher) (after : list Matcher)
    (url t : str) :
  Matcher_call m url = Ok (Some t) ->
  resolveRedirect_from existsSync root plugin (m :: after) url
  = Ok (redirect_page existsSync root plugin t).
Proof.
  intros H. simpl. rewrite H. simpl.
  rewrite (Matcher_call_truthy _ _ _ H). reflexivity.
Qed.

(** The first rule whose matcher succeeds decides: the rules before it
    are skipped, the rules after it are not asked. *)
Lemma resolveRedirect_first_match_page
    (options : Options) (before after : list (str * str))
    (pattern target : str) (m : Matcher) (url t : str) :
  viteMultiSpa options = Ok plugin ->
  opt_redirects options = before ++ (pattern, target) :: after ->
  (forall e m', In e before -> compile (fst e) (snd e) = Ok m' ->
                Matcher_call m' url = Ok None) ->
  compile pattern target = Ok m ->
  Matcher_call m url = Ok (Some t) ->
  resolveRedirect existsSync root plugin url = Ok (redirect_page existsSync root plugin t)
  /\ (redirect_page existsSync root plugin t = None ->
      resolveRedirect existsSync root plugin url = Ok None).
Proof.
  intros Hinit Hdecl Hbefore Hm Hcall.
  assert (E : resolveRedirect existsSync root plugin url = Ok (redirect_page existsSync root plugin t)).
  { unfold viteMultiSpa in Hinit.
    apply bind_Ok in Hinit. destruct Hinit as [ms [Hms Hinit]].
    assert (Hr : redirects plugin = ms)
      by (injection Hinit as Hp; rewrite <- Hp; reflexivity).
    unfold resolveRedirect. rewrite Hr.
    apply mapM_Forall2 in Hms. rewrite Hdecl in Hms.
    apply Forall2_app_inv_l in Hms.
    destruct Hms as [ms1 [ms2 [H1 [H2 ->]]]].
    inversion H2 as [|e m0 l ms3 Hm0 _]; subst. simpl in Hm0.
    rewrite Hm in Hm0. injection Hm0 as <-.
    rewrite resolveRedirect_from_skip.
    - apply resolveRedirect_from_hit. exact Hcall.
    - clear - H1 Hbefore.
      induction H1 as [|e m' l l' He _ IH]; constructor.
      + apply (Hbefore e m'); [left; reflexivity | exact He].
      + apply IH. intros e0 m0 Hin. apply Hbefore. right; exact Hin. }
  split; [exact E|]. intros Hnone. rewrite E, Hnone. reflexivity.
Qed.

End RedirectOrder.

(** ** The Request Router *)

Section Router.

Variable existsSync : str -> bool.
Variable URL_pathname : str -> result str.
Variable root : str.
Variable plugin : Plugin.

(** The document branch: the Redirect Resolver first; the Page Resolver
    only when the Redirect Resolver found nothing; no change when both
    find nothing.  The rewritten URL ends with [query_suffix req]. *)
Lemma middleware_document (req : Request) :
  sec_fetch_dest req = Some (lit "document") ->
  middleware existsSync URL_pathname root plugin req
  = (redirectUrl <- resolveRedirect existsSync root plugin (request_path req) ;;
     match redirectUrl with
     | Some redirectUrl => Ok (rewrite req (redirectUrl ++ query_suffix req))
     | None =>
         match resolvePageUrl existsSync root plugin (request_path req) with
         | Some pageUrl => Ok (rewrite req (pageUrl ++ query_suffix req))
         | None => Ok req
         end
     end).
Proof.
  intros H. unfold middleware. rewrite H.
  reflexivity.
Qed.

(** The asset branch, case by case. *)
Lemma middleware_asset_cases
    (req : Request) (dest ref pathname pageUrl : str) :
  sec_fetch_dest req = Some dest ->
  truthy dest = true ->
  dest <> lit "document" ->
  referer req = Some ref ->
  truthy ref = true ->
  startsWith (request_path req) "/@vite/" = false ->
  URL_pathname ref = Ok pathname ->
  referrer_page existsSync root plugin pathname = Ok (Some pageUrl) ->
  (existsSync (path_join [root; asset_url pageUrl req]) = true
   /\ existsSync (path_join [root; request_path req]) = false ->
   middleware existsSync URL_pathname root plugin req
   = Ok (rewrite req (asset_url pageUrl req ++ query_suffix req)))
  /\ (~ (existsSync (path_join [root; asset_url pageUrl req]) = true
         /\ existsSync (path_join [root; request_path req]) = false) ->
      middleware existsSync URL_pathname root plugin req = Ok req)
  /\ (existsSync (path_join [root; asset_url pageUrl req]) = true
      /\ existsSync (path_join [root; request_path req]) = true ->
      middleware existsSync URL_pathname root plugin req = Ok req).
Proof.
  intros Hdest Htruthy Hdoc Href Hreft Hvite Hpath Hpage.
  set (assetUrl := asset_url pageUrl req).
  set (at_page := existsSync (path_join [root; assetUrl])).
  set (at_top := existsSync (path_join [root; request_path req])).
  assert (E : middleware existsSync URL_pathname root plugin req
              = if negb at_top
                then if at_page
                     then Ok (rewrite req (assetUrl ++ query_suffix req))
                     else Ok req
                else Ok req).
  { unfold middleware. rewrite Hdest.
    apply str_eqb_neq in Hdoc. rewrite Hdoc.
    rewrite Htruthy, Href. simpl is_truthy. rewrite Hreft. simpl andb.
    fold (request_path req). rewrite Hvite, Hpath. simpl bind.
    unfold referrer_page in Hpage.
    destruct (resolveRedirect existsSync root plugin pathname)
      as [[p|]|e]; simpl in Hpage |- *.
    - injection Hpage as ->. reflexivity.
    - injection Hpage as ->. reflexivity.
    - discriminate. }
  rewrite E. repeat split.
  - intros [-> ->]. reflexivity.
  - intros H. destruct at_top; [reflexivity|]. destruct at_page; [|reflexivity].
    exfalso; apply H; split; reflexivity.
  - intros [_ ->]. reflexivity.
Qed.

End Router.

(** The precedence example of the specification: [/logo.png] exists both at
    top level and next to the page, and the request goes on unchanged. *)
Example top_level_asset_wins :
  middleware
    (files_exist [lit "/app/src/pages/contact.html";
                  lit "/app/src/pages/logo.png"; lit "/app/logo.png"])
    sample_pathname "/app" default_plugin
    (asset_request "/logo.png" "image" "http://localhost/contact")
  = Ok (asset_request "/logo.png" "image" "http://localhost/contact").
Proof. vm_compute. reflexivity. Qed.

Lemma split_no_separator (c : ascii) (s : str) :
  count_occ ascii_dec s c = 0 -> split c s = [s].
Proof.
  induction s as [|x s IH]; [reflexivity|]. simpl.
  destruct (ascii_dec x c) as [->|Hne]; [discriminate|].
  intros H. apply Ascii.eqb_neq in Hne. rewrite Hne, (IH H). reflexivity.
Qed.

Lemma split_not_nil (c : ascii) (s : str) : split c s <> [].
Proof.
  destruct s as [|x s]; simpl; [discriminate|].
  destruct (Ascii.eqb x c); [discriminate|].
  destruct (split c s); discriminate.
Qed.

(** The query the middleware reads is the whole query string as long as
    [req.url] holds one question mark at most. *)
Lemma single_query_read_whole (req : Request) :
  count_occ ascii_dec (url req) "?"%char <= 1 ->
  request_query req = query_string (url req).
Proof.
  unfold request_query. generalize (url req) as u.
  induction u as [|x u IH]; [reflexivity|]. simpl.
  destruct (ascii_dec x "?") as [->|Hne].
  - intros H. rewrite split_no_separator by lia. reflexivity.
  - intros H. apply Ascii.eqb_neq in Hne. rewrite Hne.
    specialize (IH H). pose proof (split_not_nil "?" u) as Hnil.
    destruct (split "?" u) as [|p ps]; [congruence|]. exact IH.
Qed.

(** C1 fails on a query string that holds a question mark of its own: the
    middleware keeps the text between the first two question marks of
    [req.url] only, so the rewritten request has lost [?b=2]. *)
Theorem document_query_cut_at_second_question_mark :
  middleware (files_exist [lit "/app/src/pages/contact.html"])
    sample_pathname "/app" default_plugin
    (document_request "/contact?a=1?b=2")
  = Ok (rewrite (document_request "/contact?a=1?b=2")
          "/src/pages/contact?a=1")
  /\ query_string "/contact?a=1?b=2" = lit "a=1?b=2"
  /\ query_string "/src/pages/contact?a=1" = lit "a=1".
Proof. repeat split; vm_compute; reflexivity. Qed.

(** With a single question mark the query is carried over as it is. *)
Example document_query_kept :
  middleware (files_exist [lit "/app/src/pages/contact.html"])
    sample_pathname "/app" default_plugin
    (document_request "/contact?a=1&b=2")
  = Ok (rewrite (document_request "/contact?a=1&b=2")
          "/src/pages/contact?a=1&b=2").
Proof. vm_compute. reflexivity. Qed.

(** ** Redirect targets *)

Lemma user_plugin_init : viteMultiSpa user_options = Ok user_plugin.
Proof. vm_compute. reflexivity. Qed.

Lemma user_redirect_target :
  Matcher_call (compiled "/user/:id" "/user-page?id=:id") "/user/42"
  = Ok (Some (lit "/user-page?id=42")).
Proof. vm_compute. reflexivity. Qed.

(** C4, as amended: the rule [/user/:id] with target [/user-page?id=:id]
    turns [/user/42] into [/user-page?id=42], and the page looked up is that
    whole text: the file probed is [<pagesRoot>/user-page?id=42.html]. *)
Theorem user_redirect_probes_whole_target :
  viteMultiSpa user_options = Ok user_plugin
  /\ Matcher_call (compiled "/user/:id" "/user-page?id=:id") "/user/42"
     = Ok (Some (lit "/user-page?id=42"))
  /\ forall (existsSync : str -> bool) (root : str),
       resolveRedirect existsSync root user_plugin "/user/42"
       = Ok (if existsSync
                  (path_join [root; lit "/src/pages/user-page?id=42.html"])
             then Some (lit "/src/pages/user-page?id=42")
             else None).
Proof.
  split; [exact user_plugin_init|]. split; [exact user_redirect_target|].
  intros existsSync root.
  unfold resolveRedirect.
  change (redirects user_plugin)
    with [compiled "/user/:id" "/user-page?id=:id"].
  rewrite (resolveRedirect_from_hit existsSync root user_plugin
             _ [] "/user/42" "/user-page?id=42" user_redirect_target).
  reflexivity.
Qed.

(** C4, as stated, fails: with [user-page.html] on disk the redirect finds
    no page, and it finds one when the file is called
    [user-page?id=42.html]. *)
Lemma user_redirect_misses_user_page :
  resolveRedirect (files_exist [lit "/app/src/pages/user-page.html"]) "/app"
    user_plugin "/user/42" = Ok None
  /\ resolveRedirect (files_exist [lit "/app/src/pages/user-page?id=42.html"])
       "/app" user_plugin "/user/42"
     = Ok (Some (lit "/src/pages/user-page?id=42")).
Proof. split; vm_compute; reflexivity. Qed.

(** C6 fails on a captured value that holds a dollar pattern: the value is
    passed to [String.prototype.replace] as a replacement string, where
    [$&] stands for the matched placeholder, so [/user/$&] yields [/u-:id]
    and not [/u-$&]; likewise a value that reads like a later placeholder
    is substituted again. *)
Theorem captured_value_not_verbatim :
  Matcher_call (compiled "/user/:id" "/u-:id") "/user/$&"
  = Ok (Some (lit "/u-:id"))
  /\ Matcher_call (compiled "/user/:id" "/u-:id") "/user/a$$b"
     = Ok (Some (lit "/u-a$b"))
  /\ Matcher_call (compiled "/:a/:b" "/:a") "/:b/foo"
     = Ok (Some (lit "/foo")).
Proof. repeat split; vm_compute; reflexivity. Qed.

(** The substitution is global and stops at whole tokens: [:idx] is left
    alone when [:id] is replaced. *)
Example placeholder_whole_tokens :
  Matcher_call (compiled "/x/:id" "/:idx/:id/:id") "/x/7"
  = Ok (Some (lit "/:idx/7/7")).
Proof. vm_compute. reflexivity. Qed.

(** ** Pattern compilation *)

(** *** Characters *)

Ltac each_ascii c := destruct c as [[] [] [] [] [] [] [] []].

Lemma escaped_char_facts (c : ascii) :
  is_escaped_char c = true ->
  is_word c = false /\ is_ident_start c = false
  /\ Ascii.eqb c "*" = false /\ Ascii.eqb c ":" = false
  /\ is_syntax_char c = true.
Proof. each_ascii c; vm_compute; intros H; try discriminate; tauto. Qed.

Lemma word_char_facts (c : ascii) :
  is_word c = true ->
  is_escaped_char c = false /\ Ascii.eqb c "*" = false
  /\ Ascii.eqb c ":" = false /\ Ascii.eqb c ">" = false.
Proof. each_ascii c; vm_compute; intros H; try discriminate; tauto. Qed.

Lemma ident_start_word (c : ascii) : is_ident_start c = true -> is_word c = true.
Proof. unfold is_word. intros ->. reflexivity. Qed.



(** *** The scan of [tokenRegex] *)

Lemma scan_star (s : str) :
  tokenRegex_scan None ("*"%char :: s) = Splat :: tokenRegex_scan None s.
Proof. reflexivity. Qed.

Lemma scan_colon (c2 : ascii) (s : str) :
  is_ident_start c2 = true ->
  tokenRegex_scan None (":"%char :: c2 :: s) = tokenRegex_scan (Some [c2]) s.
Proof. intros H. simpl. rewrite H. reflexivity. Qed.

Lemma scan_text (c : ascii) (s : str) :
  Ascii.eqb c "*" = false ->
  Ascii.eqb c ":" && starts_ident s = false ->
  tokenRegex_scan None (c :: s) = Text c :: tokenRegex_scan None s.
Proof.
  intros H1 H2. destruct s as [|c2 s]; simpl; rewrite H1; [reflexivity|].
  simpl in H2. rewrite H2. reflexivity.
Qed.

Lemma scan_word (n : str) (c : ascii) (s : str) :
  is_word c = true ->
  tokenRegex_scan (Some n) (c :: s) = tokenRegex_scan (Some (n ++ [c])) s.
Proof. intros H. simpl. rewrite H. reflexivity. Qed.

Lemma scan_end (n : str) (c : ascii) (s : str) :
  is_word c = false ->
  tokenRegex_scan (Some n) (c :: s)
  = Placeholder n :: tokenRegex_scan None (c :: s).
Proof. intros H. simpl. rewrite H. reflexivity. Qed.


Lemma escape_cons (c : ascii) (s : str) :
  escape (c :: s)
  = (if is_escaped_char c then ["\"%char; c] else [c]) ++ escape s.
Proof. reflexivity. Qed.

Lemma starts_ident_escape (s : str) : starts_ident (escape s) = starts_ident s.
Proof.
  destruct s as [|c s]; [reflexivity|]. rewrite escape_cons.
  destruct (is_escaped_char c) eqn:E; [|reflexivity].
  simpl. apply escaped_char_facts in E. symmetry. tauto.
Qed.

(** Escaping does not move the tokens: the scan of [escaped] is the scan of
    the pattern, with a backslash before each escaped character. *)
Lemma scan_escape (s : str) (name : option str) :
  tokenRegex_scan name (escape s)
  = flat_map escape_token (tokenRegex_scan name s).
Proof.
  revert name. induction s as [|c s IH]; intros name.
  - destruct name; reflexivity.
  - rewrite escape_cons.
    assert (N : tokenRegex_scan None
                  ((if is_escaped_char c then ["\"%char; c] else [c])
                   ++ escape s)
                = flat_map escape_token (tokenRegex_scan None (c :: s))).
    { destruct (is_escaped_char c) eqn:E.
      - pose proof (escaped_char_facts c E) as [_ [_ [Hs [Hc _]]]].
        simpl app.
        rewrite (scan_text "\" (c :: escape s)) by reflexivity.
        rewrite (scan_text c (escape s)) by (rewrite ?Hc; auto).
        rewrite (scan_text c s) by (rewrite ?Hc; auto).
        simpl. rewrite E. simpl. rewrite IH. reflexivity.
      - simpl app.
        destruct (Ascii.eqb c "*") eqn:Hs.
        + apply Ascii.eqb_eq in Hs. subst c.
          rewrite !scan_star. simpl. rewrite IH. reflexivity.
        + destruct (Ascii.eqb c ":" && starts_ident s) eqn:Hc.
          * apply andb_true_iff in Hc. destruct Hc as [Hc Hi].
            apply Ascii.eqb_eq in Hc. subst c.
            destruct s as [|c2 s]; [discriminate|]. simpl in Hi.
            specialize (IH (Some [])).
            rewrite (scan_word [] c2 s) in IH by (apply ident_start_word; exact Hi).
            rewrite (scan_colon c2 s Hi). simpl app in IH. rewrite <- IH.
            rewrite escape_cons.
            pose proof (word_char_facts c2 (ident_start_word c2 Hi)) as [E2 _].
            rewrite E2. simpl app.
            rewrite (scan_colon c2 (escape s) Hi).
            rewrite (scan_word [] c2 (escape s))
              by (apply ident_start_word; exact Hi).
            reflexivity.
          * rewrite (scan_text c (escape s) Hs)
              by (rewrite starts_ident_escape; exact Hc).
            rewrite (scan_text c s Hs Hc).
            simpl. rewrite E. simpl. rewrite IH. reflexivity. }
    destruct name as [n|]; [|exact N].
    destruct (is_word c) eqn:W.
    + pose proof (word_char_facts c W) as [E _]. rewrite E. simpl app.
      rewrite !scan_word by exact W. apply IH.
    + rewrite (scan_end n c s W).
      destruct (is_escaped_char c) eqn:E.
      * simpl app. rewrite (scan_end n "\" (c :: escape s)) by reflexivity.
        cbn [flat_map escape_token app]. f_equal. rewrite <- N. reflexivity.
      * simpl app. rewrite (scan_end n c (escape s) W).
        cbn [flat_map escape_token app]. f_equal. rewrite <- N. reflexivity.
Qed.

Lemma tokens_escape (pattern : str) :
  tokens (escape pattern) = flat_map escape_token (tokens pattern).
Proof. apply scan_escape. Qed.

Lemma is_ident_snoc (n : str) (c : ascii) :
  is_ident n = true -> is_word c = true -> is_ident (n ++ [c]) = true.
Proof.
  destruct n as [|x n]; [discriminate|]. simpl.
  rewrite !andb_true_iff, forallb_app. simpl.
  intros [-> ->] ->. auto.
Qed.

(** The scan yields stars as [Splat] only and identifiers as names. *)
Lemma scan_wf (s : str) (name : option str) :
  name_ok name s -> Forall wf_token (tokenRegex_scan name s).
Proof.
  revert name. induction s as [|c s IH]; intros name Hname.
  - destruct name as [n|]; simpl; [|constructor].
    destruct Hname as [H|[_ H]]; [|discriminate].
    constructor; [exact H | constructor].
  - assert (N : Forall wf_token (tokenRegex_scan None (c :: s))).
    { destruct (Ascii.eqb c "*") eqn:Hs.
      - apply Ascii.eqb_eq in Hs. subst c. rewrite scan_star.
        constructor; [exact I | apply IH; exact I].
      - destruct (Ascii.eqb c ":" && starts_ident s) eqn:Hc.
        + apply andb_true_iff in Hc. destruct Hc as [Hc Hi].
          apply Ascii.eqb_eq in Hc. subst c.
          destruct s as [|c2 s]; [discriminate|]. simpl in Hi.
          rewrite (scan_colon c2 s Hi).
          change (tokenRegex_scan (Some [c2]) s)
            with (tokenRegex_scan (Some ([] ++ [c2])) s).
          rewrite <- (scan_word [] c2 s) by (apply ident_start_word; exact Hi).
          apply IH. right. split; [reflexivity | exact Hi].
        + rewrite (scan_text c s Hs Hc).
          constructor; [exact Hs | apply IH; exact I]. }
    destruct name as [n|]; [|exact N].
    destruct (is_word c) eqn:W.
    + rewrite scan_word by exact W. apply IH. left.
      destruct Hname as [H|[-> H]].
      * apply is_ident_snoc; assumption.
      * simpl in H |- *. rewrite H. reflexivity.
    + rewrite scan_end by exact W. constructor; [|exact N].
      destruct Hname as [H|[_ H]]; [exact H|].
      simpl in H. apply ident_start_word in H. congruence.
Qed.

Lemma tokens_wf (pattern : str) : Forall wf_token (tokens pattern).
Proof. apply scan_wf. exact I. Qed.

(** A pattern without special tokens is scanned into its characters. *)
Lemma tokens_plain (pattern : str) :
  plain pattern = true -> tokens pattern = map Text pattern.
Proof.
  unfold tokens. induction pattern as [|c s IH]; [reflexivity|].
  simpl plain. rewrite !andb_true_iff, !negb_true_iff.
  intros [[Hs Hc] Hp]. rewrite (scan_text c s Hs Hc), IH by exact Hp.
  reflexivity.
Qed.

(** *** The parser on the pieces of [regexStr] *)

Lemma parse_from_app (a b : str) (st : pstate) :
  parse_from st (a ++ b) = (st' <- parse_from st a ;; parse_from st' b).
Proof.
  revert st. induction a as [|c a IH]; intros st; simpl; [reflexivity|].
  destruct (parse_char st c) as [st'|e]; simpl; [apply IH | reflexivity].
Qed.

Lemma parse_plain_char (c : ascii) (ts : list re) (ns : list str) :
  is_escaped_char c = false ->
  Ascii.eqb c "*" = false ->
  parse_from (top ts ns) [c] = Ok (top (Chr (CChar c) :: ts) ns).
Proof. each_ascii c; vm_compute; intros; try discriminate; reflexivity. Qed.

Lemma parse_escaped_char (c : ascii) (ts : list re) (ns : list str) :
  is_escaped_char c = true ->
  parse_from (top ts ns) ["\"%char; c] = Ok (top (Chr (CChar c) :: ts) ns).
Proof. each_ascii c; vm_compute; intros; try discriminate; reflexivity. Qed.

Lemma parse_name (n acc : str) (ts : list re) (ns : list str) :
  forallb is_word n = true ->
  parse_from {| p_mode := PName acc; p_terms := ts; p_open := None;
                p_names := ns |} n
  = Ok {| p_mode := PName (acc ++ n); p_terms := ts; p_open := None;
          p_names := ns |}.
Proof.
  revert acc. induction n as [|c n IH]; intros acc H; simpl.
  - rewrite app_nil_r. reflexivity.
  - simpl in H. apply andb_true_iff in H. destruct H as [Hc Hn].
    pose proof (word_char_facts c Hc) as [_ [_ [_ Hgt]]].
    unfold parse_char. simpl p_mode. rewrite Hgt. simpl.
    unfold set_mode. simpl. rewrite IH by exact Hn.
    rewrite <- app_assoc. reflexivity.
Qed.

Lemma is_ident_group_name (n : str) : is_ident n = true -> is_group_name n = true.
Proof.
  destruct n as [|c n]; [discriminate|]. simpl.
  rewrite !andb_true_iff. intros [-> H]. split; [reflexivity|].
  rewrite forallb_forall in H |- *. intros x Hx. rewrite (H x Hx). reflexivity.
Qed.

Lemma is_ident_word (n : str) : is_ident n = true -> forallb is_word n = true.
Proof.
  destruct n as [|c n]; [discriminate|]. simpl.
  rewrite !andb_true_iff. intros [H ->]. split; [|reflexivity].
  apply ident_start_word; exact H.
Qed.

(** A token outside every group: the parser pushes its term, or throws on
    a group name it has met before. *)
Lemma parse_group (n body : str) (r : re) (ts : list re) (ns : list str) :
  is_ident n = true ->
  (forall seen,
      parse_from {| p_mode := PTop; p_terms := [];
                    p_open := Some (n, ts); p_names := seen |} body
      = Ok (top (Group n r :: ts) seen)) ->
  parse_from (top ts ns) ("(?<" ++ n ++ ">" ++ body)
  = if existsb (str_eqb n) ns then Throw SyntaxError
    else Ok (top (Group n r :: ts) (ns ++ [n])).
Proof.
  intros Hn Hbody.
  change (lit "(?<" ++ n ++ lit ">" ++ body)
    with ("("%char :: "?"%char :: "<"%char :: n ++ ">"%char :: body).
  change (parse_from (top ts ns)
            ("("%char :: "?"%char :: "<"%char :: n ++ ">"%char :: body))
    with (parse_from {| p_mode := PName []; p_terms := ts; p_open := None;
                        p_names := ns |} (n ++ ">"%char :: body)).
  rewrite parse_from_app, parse_name by (apply is_ident_word; exact Hn).
  cbn [bind parse_from app]. unfold parse_char. cbn [p_mode Ascii.eqb Bool.eqb].
  unfold open_group. rewrite (is_ident_group_name n Hn).
  cbn [negb p_names p_open p_terms bind].
  destruct (existsb (str_eqb n) ns); [reflexivity|].
  apply Hbody.
Qed.

Lemma parse_piece (t : token) (ts : list re) (ns : list str) :
  wf_token t ->
  parse_from (top ts ns) (concat (map piece (escape_token t)))
  = match t with
    | Text _ => Ok (top (term_of t :: ts) ns)
    | Splat =>
        if existsb (str_eqb "splat") ns then Throw SyntaxError
        else Ok (top (term_of t :: ts) (ns ++ [lit "splat"]))
    | Placeholder n =>
        if existsb (str_eqb n) ns then Throw SyntaxError
        else Ok (top (term_of t :: ts) (ns ++ [n]))
    end.
Proof.
  intros Hwf. destruct t as [c| |n]; simpl in Hwf.
  - simpl escape_token. destruct (is_escaped_char c) eqn:E.
    + apply parse_escaped_char; exact E.
    + apply parse_plain_char; assumption.
  - apply (parse_group "splat" ".*)"); [reflexivity|].
    intros seen. reflexivity.
  - simpl. rewrite app_nil_r.
    change (lit "(?<" ++ n ++ lit ">[^/]+)")
      with (lit "(?<" ++ n ++ lit ">" ++ lit "[^/]+)").
    apply parse_group; [exact Hwf|].
    intros seen. reflexivity.
Qed.

Lemma pieces_cons (t : token) (toks : list token) :
  concat (map piece (flat_map escape_token (t :: toks)))
  = concat (map piece (escape_token t))
    ++ concat (map piece (flat_map escape_token toks)).
Proof. cbn [flat_map]. rewrite map_app, concat_app. reflexivity. Qed.

Lemma parse_pieces (toks : list token) (ts : list re) (ns : list str) :
  Forall wf_token toks ->
  parse_from (top ts ns) (concat (map piece (flat_map escape_token toks)))
  = if fresh_names ns (names toks)
    then Ok (top (rev (map term_of toks) ++ ts) (ns ++ names toks))
    else Throw SyntaxError.
Proof.
  intros Hwf. revert ts ns.
  induction Hwf as [|t toks Ht _ IH]; intros ts ns.
  - simpl. rewrite app_nil_r. reflexivity.
  - rewrite pieces_cons, parse_from_app, (parse_piece t ts ns Ht).
    destruct t as [c| |n]; cbn [names fresh_names].
    + cbn [bind]. rewrite IH. cbn [map rev].
      rewrite <- app_assoc. reflexivity.
    + destruct (existsb (str_eqb "splat") ns); [reflexivity|].
      cbn [bind negb andb]. rewrite IH. cbn [map rev].
      rewrite <- !app_assoc. reflexivity.
    + destruct (existsb (str_eqb n) ns); [reflexivity|].
      cbn [bind negb andb]. rewrite IH. cbn [map rev].
      rewrite <- !app_assoc. reflexivity.
Qed.

(** What [new RegExp(regexStr)] returns: the regular expression of the
    tokens of the pattern, or a [SyntaxError] when two groups share a name. *)
Lemma RegExp_new_regexStr (pattern : str) :
  RegExp_new (regexStr pattern) ""
  = if fresh_names [] (names (tokens pattern))
    then Ok {| rx_re := pattern_re (tokens pattern); rx_global := false |}
    else Throw SyntaxError.
Proof.
  unfold RegExp_new, regexStr. rewrite tokens_escape.
  change (parse_from p_init
            (lit "^" ++ concat (map piece (flat_map escape_token
                                                     (tokens pattern)))
             ++ lit "$"))
    with (parse_from (top [Bol] [])
            (concat (map piece (flat_map escape_token (tokens pattern)))
             ++ lit "$")).
  rewrite parse_from_app, parse_pieces by apply tokens_wf.
  destruct (fresh_names [] (names (tokens pattern))); [|reflexivity].
  cbn [bind]. simpl.
  unfold pattern_re. rewrite rev_app_distr, rev_involutive. reflexivity.
Qed.

Lemma compile_regexStr (pattern target : str) :
  compile pattern target
  = if fresh_names [] (names (tokens pattern))
    then Ok {| regex := {| rx_re := pattern_re (tokens pattern);
                           rx_global := false |};
               target := target |}
    else Throw SyntaxError.
Proof.
  unfold compile. rewrite RegExp_new_regexStr.
  destruct (fresh_names _ _); reflexivity.
Qed.

(** *** Two stars *)

Lemma scan_splats (s : str) (name : option str) :
  splats (tokenRegex_scan name s) = count_occ ascii_dec s "*"%char.
Proof.
  revert name. induction s as [|c s IH]; intros name.
  - destruct name; reflexivity.
  - assert (N : splats (tokenRegex_scan None (c :: s))
                = count_occ ascii_dec (c :: s) "*"%char).
    { destruct (Ascii.eqb c "*") eqn:Hs.
      - apply Ascii.eqb_eq in Hs. subst c. rewrite scan_star.
        rewrite count_occ_cons_eq by reflexivity.
        unfold splats in *. simpl. rewrite IH. reflexivity.
      - assert (Hne : c <> "*"%char)
          by (intros ->; discriminate).
        rewrite count_occ_cons_neq by exact Hne.
        destruct (Ascii.eqb c ":" && starts_ident s) eqn:Hc.
        + apply andb_true_iff in Hc. destruct Hc as [Hc Hi].
          apply Ascii.eqb_eq in Hc. subst c.
          destruct s as [|c2 s]; [discriminate|]. simpl in Hi.
          rewrite (scan_colon c2 s Hi).
          change (tokenRegex_scan (Some [c2]) s)
            with (tokenRegex_scan (Some ([] ++ [c2])) s).
          rewrite <- (scan_word [] c2 s) by (apply ident_start_word; exact Hi).
          apply IH.
        + rewrite (scan_text c s Hs Hc). unfold splats in *. simpl. apply IH. }
    destruct name as [n|]; [|exact N].
    destruct (is_word c) eqn:W.
    + rewrite scan_word by exact W. rewrite IH.
      pose proof (word_char_facts c W) as [_ [Hs _]].
      rewrite count_occ_cons_neq by (intros ->; discriminate). reflexivity.
    + rewrite scan_end by exact W. unfold splats in *. simpl. exact N.
Qed.

Lemma fresh_names_seen_splat (toks : list token) (ns : list str) :
  existsb (str_eqb "splat") ns = true ->
  1 <= splats toks ->
  fresh_names ns (names toks) = false.
Proof.
  revert ns. induction toks as [|t toks IH]; intros ns Hseen Hn.
  - unfold splats in Hn. simpl in Hn. lia.
  - destruct t as [c| |n]; cbn [names fresh_names].
    + apply IH; assumption.
    + rewrite Hseen. reflexivity.
    + destruct (existsb (str_eqb n) ns); [reflexivity|]. cbn [negb andb].
      apply IH; [|exact Hn].
      rewrite existsb_app, Hseen. reflexivity.
Qed.

Lemma fresh_names_two_splats (toks : list token) (ns : list str) :
  2 <= splats toks -> fresh_names ns (names toks) = false.
Proof.
  revert ns. induction toks as [|t toks IH]; intros ns Hn.
  - unfold splats in Hn. simpl in Hn. lia.
  - destruct t as [c| |n]; cbn [names fresh_names].
    + apply IH; assumption.
    + destruct (existsb (str_eqb "splat") ns); [reflexivity|].
      cbn [negb andb]. apply fresh_names_seen_splat.
      * rewrite existsb_app. simpl. apply orb_true_r.
      * unfold splats in *. simpl in Hn. lia.
    + destruct (existsb (str_eqb n) ns); [reflexivity|]. cbn [negb andb].
      apply IH. exact Hn.
Qed.

Lemma mapM_throw {A B} (f : A -> result B) (l : list A) (a : A) (e : exn) :
  In a l -> f a = Throw e ->
  (forall x, In x l -> (exists b, f x = Ok b) \/ f x = Throw e) ->
  mapM f l = Throw e.
Proof.
  induction l as [|x l IH]; intros Hin Ha Hall; [destruct Hin|].
  simpl. destruct (Hall x (or_introl eq_refl)) as [[b Hb]|Hx].
  - rewrite Hb. cbn [bind]. destruct Hin as [->|Hin]; [congruence|].
    rewrite IH; [reflexivity | exact Hin | exact Ha |].
    intros y Hy. apply Hall. right; exact Hy.
  - rewrite Hx. reflexivity.
Qed.

(** C10: a pattern with two stars or more does not compile: both stars
    become a group named [splat], [new RegExp] throws a [SyntaxError] on the
    second, and with it the whole initialisation of the plugin throws. *)
Theorem two_splats_throw (options : Options) (pattern target : str) :
  2 <= count_occ ascii_dec pattern "*"%char ->
  splats (tokens (escape pattern)) = count_occ ascii_dec pattern "*"%char
  /\ RegExp_new (regexStr pattern) "" = Throw SyntaxError
  /\ compile pattern target = Throw SyntaxError
  /\ (In (pattern, target) (opt_redirects options) ->
      viteMultiSpa options = Throw SyntaxError).
Proof.
  intros H2.
  assert (Hs : splats (tokens pattern) = count_occ ascii_dec pattern "*"%char)
    by apply scan_splats.
  assert (Hf : fresh_names [] (names (tokens pattern)) = false)
    by (apply fresh_names_two_splats; lia).
  assert (Hc : compile pattern target = Throw SyntaxError)
    by (rewrite compile_regexStr, Hf; reflexivity).
  split; [|split; [|split]].
  - unfold tokens. rewrite scan_splats.
    clear. induction pattern as [|c s IH]; [reflexivity|].
    rewrite escape_cons. destruct (is_escaped_char c) eqn:E.
    + pose proof (escaped_char_facts c E) as [_ [_ [Hstar _]]].
      assert (Hne : c <> "*"%char) by (intros ->; discriminate).
      simpl app. rewrite (count_occ_cons_neq ascii_dec s Hne).
      rewrite count_occ_cons_neq by discriminate.
      rewrite count_occ_cons_neq by exact Hne. exact IH.
    + simpl app. destruct (ascii_dec c "*") as [->|Hne].
      * rewrite !count_occ_cons_eq by reflexivity. rewrite IH. reflexivity.
      * rewrite !count_occ_cons_neq by exact Hne. exact IH.
  - rewrite RegExp_new_regexStr, Hf. reflexivity.
  - exact Hc.
  - intros Hin. unfold viteMultiSpa.
    rewrite (mapM_throw (fun e => compile (fst e) (snd e))
               (opt_redirects options) (pattern, target) SyntaxError Hin Hc);
      [reflexivity|].
    intros [p t] _. simpl. rewrite compile_regexStr.
    destruct (fresh_names [] (names (tokens p)));
      [left; eexists; reflexivity | right; reflexivity].
Qed.

Lemma two_splats_throw_witness :
  compile "/a/*/b/*" "/t" = Throw SyntaxError
  /\ viteMultiSpa {| opt_pagesRoot := None;
                     opt_redirects := [(lit "/ok/:id", lit "/ok");
                                       (lit "/a/*/b/*", lit "/t")] |}
     = Throw SyntaxError.
Proof.
  pose proof (two_splats_throw
                {| opt_pagesRoot := None;
                   opt_redirects := [(lit "/ok/:id", lit "/ok");
                                     (lit "/a/*/b/*", lit "/t")] |}
                "/a/*/b/*" "/t") as H.
  destruct H as [_ [_ [Hc Hv]]].
  - vm_compute. lia.
  - split; [exact Hc|]. apply Hv. right; left; reflexivity.
Defined.

(** ** Matching a compiled pattern *)

Lemma last_prev_app (p : option ascii) (v w : str) :
  last_prev p (v ++ w) = last_prev (last_prev p v) w.
Proof. revert p; induction v as [|c v IH]; intros p; simpl; auto. Qed.

Lemma greedy_In (m : cset) (s : str) (p p' : option ascii) (s' : str) :
  In (p', s') (greedy m p s)
  <-> exists v, s = v ++ s' /\ forallb (accepts m) v = true
                /\ p' = last_prev p v.
Proof.
  revert p. induction s as [|c s IH]; intros p.
  - simpl. split.
    + intros [[= <- <-]|[]]. exists []. auto.
    + intros [v [Hs [_ Hp]]]. symmetry in Hs.
      apply app_eq_nil in Hs. destruct Hs as [-> ->]. left. subst; reflexivity.
  - simpl. destruct (accepts m c) eqn:A.
    + rewrite in_app_iff, IH. split.
      * intros [[v [-> [Hv ->]]]|[[= <- <-]|[]]].
        -- exists (c :: v). simpl. rewrite A, Hv. auto.
        -- exists []. auto.
      * intros [[|x v] [Hs [Hv Hp]]].
        -- right. left. simpl in Hs, Hp. subst. reflexivity.
        -- left. simpl in Hs. injection Hs as <- ->. simpl in Hv.
           apply andb_true_iff in Hv. exists v. simpl in Hp. tauto.
    + split.
      * intros [[= <- <-]|[]]. exists []. auto.
      * intros [[|x v] [Hs [Hv Hp]]].
        -- left. simpl in Hs, Hp. subst. reflexivity.
        -- simpl in Hs. injection Hs as <- ->. simpl in Hv.
           rewrite A in Hv. discriminate.
Qed.

Lemma firstn_consumed (v s' : str) :
  firstn (length (v ++ s') - length s') (v ++ s') = v.
Proof.
  rewrite length_app, Nat.add_sub.
  rewrite firstn_app, Nat.sub_diag, firstn_all. simpl. apply app_nil_r.
Qed.

Lemma run_group_star (n : str) (m : cset) (st st' : mstate) :
  In st' (run (Group n (Cat (Star m) Eps)) st)
  <-> exists v s', m_rest st = v ++ s' /\ forallb (accepts m) v = true
                   /\ st' = captured n v s' st.
Proof.
  cbn [run]. rewrite in_map_iff. split.
  - intros [st1 [<- H]]. apply in_flat_map in H.
    destruct H as [st2 [H2 [<-|[]]]]. apply in_map_iff in H2.
    destruct H2 as [[p1 s1] [<- H1]]. apply greedy_In in H1.
    destruct H1 as [v [Hs [Hv ->]]]. exists v, s1.
    split; [exact Hs|]. split; [exact Hv|].
    unfold capture, captured, move. simpl. rewrite Hs, firstn_consumed.
    reflexivity.
  - intros [v [s' [Hs [Hv ->]]]].
    exists (move (last_prev (m_prev st) v) s' st). split.
    + unfold capture, captured, move. simpl. rewrite Hs, firstn_consumed.
      reflexivity.
    + apply in_flat_map. exists (move (last_prev (m_prev st) v) s' st).
      split; [|left; reflexivity].
      apply in_map_iff. exists (last_prev (m_prev st) v, s').
      split; [reflexivity|]. apply greedy_In. exists v. auto.
Qed.

Lemma run_group_plus (n : str) (m : cset) (st st' : mstate) :
  In st' (run (Group n (Cat (Plus m) Eps)) st)
  <-> exists v s', v <> [] /\ m_rest st = v ++ s'
                   /\ forallb (accepts m) v = true
                   /\ st' = captured n v s' st.
Proof.
  cbn [run]. rewrite in_map_iff. split.
  - intros [st1 [<- H]]. apply in_flat_map in H.
    destruct H as [st2 [H2 [<-|[]]]].
    destruct (m_rest st) as [|c s0] eqn:R; [destruct H2|].
    destruct (accepts m c) eqn:A; [|destruct H2].
    apply in_map_iff in H2.
    destruct H2 as [[p1 s1] [<- H1]]. apply greedy_In in H1.
    destruct H1 as [v [Hs [Hv ->]]]. exists (c :: v), s1.
    split; [discriminate|]. split; [simpl; rewrite Hs; reflexivity|].
    split; [simpl; rewrite A; exact Hv|].
    unfold capture, captured, move. simpl m_rest. simpl m_caps. simpl m_prev.
    rewrite R, Hs.
    change (c :: v ++ s1) with ((c :: v) ++ s1). rewrite firstn_consumed.
    reflexivity.
  - intros [v [s' [Hne [Hs [Hv ->]]]]].
    destruct v as [|c v]; [congruence|]. simpl in Hs, Hv.
    apply andb_true_iff in Hv. destruct Hv as [A Hv].
    exists (move (last_prev (Some c) v) s' st). split.
    + unfold capture, captured, move. simpl m_rest. simpl m_caps. simpl m_prev.
      rewrite Hs.
      change (c :: v ++ s') with ((c :: v) ++ s'). rewrite firstn_consumed.
      reflexivity.
    + apply in_flat_map. exists (move (last_prev (Some c) v) s' st).
      split; [|left; reflexivity].
      rewrite Hs, A. apply in_map_iff. exists (last_prev (Some c) v, s').
      split; [reflexivity|]. apply greedy_In. exists v. auto.
Qed.

Lemma forallb_not_slash (v : str) :
  forallb (accepts (CClass true ["/"%char])) v
  = forallb (fun c => negb (Ascii.eqb c "/")) v.
Proof.
  induction v as [|c v IH]; [reflexivity|]. simpl. rewrite IH.
  rewrite orb_false_r. reflexivity.
Qed.

(** The matcher on the terms of a pattern, up to the end of the input: the
    runs it can end in are the ways the input parses. *)
Lemma run_terms (toks : list token) (st st' : mstate) :
  In st' (run (seq (map term_of toks ++ [Eol])) st)
  <-> exists caps,
        parses toks (m_rest st) caps
        /\ st' = {| m_prev := last_prev (m_prev st) (m_rest st);
                    m_rest := []; m_caps := m_caps st ++ caps |}.
Proof.
  revert st st'. induction toks as [|t toks IH]; intros st st'.
  - simpl. destruct st as [p s caps0]. simpl. destruct s as [|c s]; simpl.
    + split.
      * intros [<-|[]]. exists []. split; [constructor|].
        rewrite app_nil_r. reflexivity.
      * intros [caps [H ->]]. inversion H; subst. left.
        rewrite app_nil_r. reflexivity.
    + split; [intros [] | intros [caps [H _]]; inversion H].
  - change (seq (map term_of (t :: toks) ++ [Eol]))
      with (Cat (term_of t) (seq (map term_of toks ++ [Eol]))).
    cbn [run]. rewrite in_flat_map. split.
    + intros [st1 [H1 H2]]. apply IH in H2. destruct H2 as [caps [Hp ->]].
      destruct t as [c| |n].
      * simpl in H1. destruct (m_rest st) as [|x s0] eqn:R; [destruct H1|].
        destruct (Ascii.eqb c x) eqn:E; [|destruct H1].
        apply Ascii.eqb_eq in E. subst x. destruct H1 as [<-|[]].
        simpl in Hp |- *. exists caps. split; [constructor; exact Hp|].
        reflexivity.
      * apply run_group_star in H1. destruct H1 as [v [s' [Hs [Hv ->]]]].
        exists ((lit "splat", v) :: caps). rewrite Hs. split.
        -- constructor; assumption.
        -- unfold captured. simpl. rewrite last_prev_app, <- app_assoc.
           reflexivity.
      * apply run_group_plus in H1.
        destruct H1 as [v [s' [Hne [Hs [Hv ->]]]]].
        exists ((n, v) :: caps). rewrite Hs. split.
        -- constructor; try assumption. rewrite <- forallb_not_slash. exact Hv.
        -- unfold captured. simpl. rewrite last_prev_app, <- app_assoc.
           reflexivity.
    + intros [caps [Hp ->]].
      inversion Hp as [|c toks0 s caps' Hp' E1 E2 E3
                       |v toks0 s caps' Hv Hp' E1 E2 E3
                       |n v toks0 s caps' Hne Hv Hp' E1 E2 E3]; subst.
      * exists (move (Some c) s st). split.
        -- simpl. rewrite <- E2. rewrite Ascii.eqb_refl. left; reflexivity.
        -- apply IH. exists caps. split; [exact Hp'|]. reflexivity.
      * exists (captured "splat" v s st). split.
        -- apply run_group_star. exists v, s. auto.
        -- apply IH. exists caps'. split; [exact Hp'|].
           unfold captured. simpl. rewrite last_prev_app, <- app_assoc.
           reflexivity.
      * exists (captured n v s st). split.
        -- apply run_group_plus. exists v, s. rewrite forallb_not_slash. auto.
        -- apply IH. exists caps'. split; [exact Hp'|].
           unfold captured. simpl. rewrite last_prev_app, <- app_assoc.
           reflexivity.
Qed.

Lemma exec_from_not_at_start (r : re) (s : str) (index : nat) (c : ascii) :
  exec_from (Cat Bol r) index (Some c) s = None.
Proof.
  revert index c. induction s as [|x s IH]; intros index c; simpl; auto.
Qed.

(** [url.match(regex)] for the regular expression of a pattern: the match,
    if any, starts at index 0, spans the whole of [url] and captures one of
    the ways [url] parses. *)
Lemma String_match_pattern (toks : list token) (url : str) :
  exists found,
    String_match url {| rx_re := pattern_re toks; rx_global := false |}
    = Ok found
    /\ (forall mr, found = Some mr ->
          mr_index mr = 0 /\ mr_text mr = url /\ parses toks url (mr_groups mr))
    /\ (found = None -> forall caps, ~ parses toks url caps).
Proof.
  unfold String_match. cbn [rx_global rx_re].
  set (st0 := {| m_prev := None; m_rest := url; m_caps := [] |}).
  assert (E : run (pattern_re toks) st0
              = run (seq (map term_of toks ++ [Eol])) st0).
  { unfold pattern_re.
    change (seq (Bol :: map term_of toks ++ [Eol]))
      with (Cat Bol (seq (map term_of toks ++ [Eol]))).
    cbn [run flat_map m_prev st0]. apply app_nil_r. }
  destruct (run (seq (map term_of toks ++ [Eol])) st0) as [|st' l] eqn:R.
  - exists None. split; [|split].
    + destruct url as [|c s]; unfold exec_from; fold exec_from;
        fold st0; rewrite E; [reflexivity|].
      unfold pattern_re.
      change (seq (Bol :: map term_of toks ++ [Eol]))
        with (Cat Bol (seq (map term_of toks ++ [Eol]))).
      rewrite exec_from_not_at_start. reflexivity.
    + discriminate.
    + intros _ caps Hp.
      assert (H : In {| m_prev := last_prev None url; m_rest := [];
                        m_caps := [] ++ caps |}
                     (run (seq (map term_of toks ++ [Eol])) st0))
        by (apply run_terms; exists caps; split; [exact Hp | reflexivity]).
      rewrite R in H. destruct H.
  - assert (H : In st' (run (seq (map term_of toks ++ [Eol])) st0))
      by (rewrite R; left; reflexivity).
    apply run_terms in H. destruct H as [caps [Hp ->]].
    eexists. split; [|split].
    + destruct url as [|c s]; unfold exec_from; fold exec_from;
        fold st0; rewrite E; reflexivity.
    + intros mr [= <-]. cbn [mr_index mr_text mr_groups m_rest m_caps app].
      split; [reflexivity|]. split; [|exact Hp].
      rewrite Nat.sub_0_r. apply firstn_all.
    + discriminate.
Qed.

Lemma parses_plain (pattern url : str) (caps : list (str * str)) :
  parses (map Text pattern) url caps <-> url = pattern /\ caps = [].
Proof.
  revert url. induction pattern as [|c s IH]; intros url; simpl.
  - split; [intros H; inversion H; auto | intros [-> ->]; constructor].
  - split.
    + intros H. inversion H; subst. apply IH in H4. destruct H4 as [-> ->].
      auto.
    + intros [-> ->]. constructor. apply IH. auto.
Qed.

Lemma compiled_regex (pattern target : str) (m : Matcher) :
  compile pattern target = Ok m ->
  regex m = {| rx_re := pattern_re (tokens pattern); rx_global := false |}.
Proof.
  intros Hc. rewrite compile_regexStr in Hc.
  destruct (fresh_names [] (names (tokens pattern))); [|discriminate].
  injection Hc as <-. reflexivity.
Qed.

(** A pattern without special tokens always compiles. *)
Lemma plain_pattern_compiles (pattern target : str) :
  plain pattern = true -> exists m, compile pattern target = Ok m.
Proof.
  intros H. rewrite compile_regexStr, (tokens_plain pattern H).
  assert (N : names (map Text pattern) = [])
    by (clear; induction pattern; simpl; auto).
  rewrite N. eexists. reflexivity.
Qed.

(** C7: the matcher of a compiled pattern succeeds only on a whole path,
    from index 0 to the end, which reads token by token as the pattern does,
    every character that is not part of a star or a placeholder standing
    for itself, regular-expression syntax characters included; and a
    pattern without special tokens matches the path equal to it and no
    other. *)
Theorem compiled_pattern_matches_whole_path
    (pattern target : str) (m : Matcher) (url : str) :
  compile pattern target = Ok m ->
  exists found,
    String_match url (regex m) = Ok found
    /\ (forall mr, found = Some mr ->
          mr_index mr = 0 /\ mr_text mr = url
          /\ parses (tokens pattern) url (mr_groups mr))
    /\ (found = None -> forall caps, ~ parses (tokens pattern) url caps)
    /\ (plain pattern = true -> (found <> None <-> url = pattern)).
Proof.
  intros Hc. rewrite (compiled_regex pattern target m Hc).
  destruct (String_match_pattern (tokens pattern) url)
    as [found [Hm [Hsome Hnone]]].
  exists found. split; [exact Hm|]. split; [exact Hsome|].
  split; [exact Hnone|].
  intros Hplain. rewrite (tokens_plain pattern Hplain) in Hsome, Hnone.
  split.
  - intros Hf. destruct found as [mr|]; [|congruence].
    destruct (Hsome mr eq_refl) as [_ [_ Hp]].
    apply parses_plain in Hp. tauto.
  - intros -> Hf. apply (Hnone Hf []). apply parses_plain. auto.
Qed.

Lemma compiled_pattern_matches_whole_path_witness :
  exists found,
    String_match "/a.b/(c)" (regex (compiled "/a.b/(c)" "/t")) = Ok found
    /\ (forall mr, found = Some mr ->
          mr_index mr = 0 /\ mr_text mr = lit "/a.b/(c)"
          /\ parses (tokens "/a.b/(c)") "/a.b/(c)" (mr_groups mr))
    /\ (found = None -> forall caps, ~ parses (tokens "/a.b/(c)") "/a.b/(c)" caps)
    /\ (plain "/a.b/(c)" = true ->
        (found <> None <-> lit "/a.b/(c)" = lit "/a.b/(c)")).
Proof.
  apply (compiled_pattern_matches_whole_path "/a.b/(c)" "/t"
           (compiled "/a.b/(c)" "/t") "/a.b/(c)").
  vm_compute. reflexivity.
Defined.

(** A dot of the pattern is a dot of the path, nothing else, and a match
    never stops short of the end of the path. *)
Example literal_dot_and_anchors :
  String_match "/axb/(c)" (regex (compiled "/a.b/(c)" "/t")) = Ok None
  /\ String_match "/a.b/(c)/d" (regex (compiled "/a.b/(c)" "/t")) = Ok None
  /\ String_match "/x/a.b/(c)" (regex (compiled "/a.b/(c)" "/t")) = Ok None.
Proof. repeat split; vm_compute; reflexivity. Qed.

(** ** Placeholders *)

Lemma parses_app (a b : list token) (s1 s2 : str)
    (c1 c2 : list (str * str)) :
  parses a s1 c1 -> parses b s2 c2 -> parses (a ++ b) (s1 ++ s2) (c1 ++ c2).
Proof.
  intros H1 H2. induction H1; simpl; auto.
  - constructor; assumption.
  - rewrite <- app_assoc. constructor; assumption.
  - rewrite <- app_assoc. constructor; assumption.
Qed.

Lemma first_slash_unique (v1 v2 r1 r2 : str) :
  forallb (fun c => negb (Ascii.eqb c "/")) v1 = true ->
  forallb (fun c => negb (Ascii.eqb c "/")) v2 = true ->
  v1 ++ "/"%char :: r1 = v2 ++ "/"%char :: r2 ->
  v1 = v2 /\ r1 = r2.
Proof.
  revert v2. induction v1 as [|x v1 IH]; intros [|y v2] H1 H2 E;
    simpl in *.
  - injection E as ->. auto.
  - injection E as <- _. discriminate.
  - injection E as -> _. discriminate.
  - injection E as <- E.
    apply andb_true_iff in H1. apply andb_true_iff in H2.
    destruct (IH v2 (proj2 H1) (proj2 H2) E) as [-> ->]. auto.
Qed.

(** A separated pattern reads a path in one way at most. *)
Lemma parses_separated_unique (toks : list token) (s : str)
    (c1 c2 : list (str * str)) :
  separated toks = true -> parses toks s c1 -> parses toks s c2 -> c1 = c2.
Proof.
  intros Hsep H1. revert c2 Hsep.
  induction H1 as [|c toks s caps H1 IH|v toks s caps Hv H1 IH
                   |n v toks s caps Hne Hv H1 IH]; intros c2 Hsep H2.
  - inversion H2. reflexivity.
  - inversion H2; subst. apply IH; assumption.
  - discriminate.
  - inversion H2 as [| | |n' v' toks' s' caps' Hne' Hv' H2' E1 E2 E3]; subst.
    simpl in Hsep. destruct toks as [|[c| |n'] toks].
    + inversion H1; subst. inversion H2'; subst.
      rewrite !app_nil_r in E2. subst. reflexivity.
    + apply andb_true_iff in Hsep. destruct Hsep as [Hc Hsep].
      apply Ascii.eqb_eq in Hc. subst c.
      inversion H1; subst. inversion H2'; subst.
      destruct (first_slash_unique _ _ _ _ Hv' Hv E2) as [-> ->].
      f_equal. apply IH; [exact Hsep|]. constructor. assumption.
    + discriminate.
    + discriminate.
Qed.

(** C8, as amended: a placeholder stands for any non-empty run of
    characters other than [/].  Whenever the path reads as the pattern
    does, with such a run [v] at the placeholder, the matcher succeeds and
    its captures are a reading of the path; they are the given one, [v]
    under the name of the placeholder, when the pattern is separated (no
    star, and a slash or the end of the pattern after every placeholder). *)
Theorem placeholder_captures_nonempty_run
    (pattern target : str) (m : Matcher)
    (before after : list token) (name : str)
    (pre v post : str) (caps1 caps2 : list (str * str)) :
  compile pattern target = Ok m ->
  tokens pattern = before ++ Placeholder name :: after ->
  parses before pre caps1 ->
  v <> [] ->
  forallb (fun c => negb (Ascii.eqb c "/")) v = true ->
  parses after post caps2 ->
  exists mr,
    String_match (pre ++ v ++ post) (regex m) = Ok (Some mr)
    /\ parses (tokens pattern) (pre ++ v ++ post) (mr_groups mr)
    /\ (separated (tokens pattern) = true ->
        mr_groups mr = caps1 ++ (name, v) :: caps2).
Proof.
  intros Hc Htok Hpre Hne Hv Hpost.
  assert (Hp : parses (tokens pattern) (pre ++ v ++ post)
                 (caps1 ++ (name, v) :: caps2)).
  { rewrite Htok. apply parses_app; [exact Hpre|].
    constructor; assumption. }
  rewrite (compiled_regex pattern target m Hc).
  destruct (String_match_pattern (tokens pattern) (pre ++ v ++ post))
    as [found [Hm [Hsome Hnone]]]. rewrite Hm.
  destruct found as [mr|].
  - exists mr. destruct (Hsome mr eq_refl) as [_ [_ Hmr]].
    split; [reflexivity|]. split; [exact Hmr|].
    intros Hsep. apply (parses_separated_unique _ _ _ _ Hsep Hmr Hp).
  - exfalso. apply (Hnone eq_refl _ Hp).
Qed.

Lemma placeholder_captures_nonempty_run_witness :
  exists mr,
    String_match (lit "/user/" ++ lit "42" ++ lit "/posts")
      (regex (compiled "/user/:id/posts" "/t")) = Ok (Some mr)
    /\ parses (tokens "/user/:id/posts")
         (lit "/user/" ++ lit "42" ++ lit "/posts") (mr_groups mr)
    /\ (separated (tokens "/user/:id/posts") = true ->
        mr_groups mr = [] ++ (lit "id", lit "42") :: []).
Proof.
  apply (placeholder_captures_nonempty_run "/user/:id/posts" "/t"
           (compiled "/user/:id/posts" "/t")
           (map Text "/user/") (map Text "/posts") "id"
           "/user/" "42" "/posts" [] []).
  - vm_compute. reflexivity.
  - vm_compute. reflexivity.
  - apply parses_plain. auto.
  - discriminate.
  - reflexivity.
  - apply parses_plain. auto.
Defined.

(** C8, as stated, fails on the empty run: [/user/] is not matched by
    [/user/:id].  And where the path reads in two ways the run captured is
    the longest, not any: [/x-y-z] reads as [/:a-:b] with [x] for [a], but
    the match has [x-y]. *)
Lemma placeholder_rejects_empty_run :
  String_match "/user/" (regex (compiled "/user/:id" "/t")) = Ok None
  /\ parses (tokens "/:a-:b") "/x-y-z"
       [(lit "a", lit "x"); (lit "b", lit "y-z")]
  /\ String_match "/x-y-z" (regex (compiled "/:a-:b" "/t"))
     = Ok (Some {| mr_index := 0; mr_text := "/x-y-z";
                   mr_groups := [(lit "a", lit "x-y"); (lit "b", lit "z")] |}).
Proof.
  split; [vm_compute; reflexivity|]. split; [|vm_compute; reflexivity].
  change (tokens "/:a-:b")
    with [Text "/"; Placeholder "a"; Text "-"; Placeholder "b"].
  change (lit "/x-y-z") with ("/"%char :: lit "x" ++ "-"%char :: lit "y-z" ++ []).
  constructor. constructor; [discriminate | reflexivity |].
  constructor. constructor; [discriminate | reflexivity |]. constructor.
Qed.

(** ** The matcher always returns *)

Lemma parse_word_chars (n : str) (ts : list re) (ns : list str) :
  forallb is_word n = true ->
  parse_from (top ts ns) n
  = Ok (top (rev (map (fun c => Chr (CChar c)) n) ++ ts) ns).
Proof.
  revert ts. induction n as [|c n IH]; intros ts H; [reflexivity|].
  simpl in H. apply andb_true_iff in H. destruct H as [Hc Hn].
  pose proof (word_char_facts c Hc) as [He [Hs _]].
  change (c :: n) with ([c] ++ n).
  rewrite parse_from_app, (parse_plain_char c ts ns He Hs). cbn [bind].
  rewrite IH by exact Hn. simpl. rewrite <- app_assoc. reflexivity.
Qed.

Lemma RegExp_new_placeholder (name : str) :
  is_ident name = true ->
  RegExp_new (":" ++ name ++ "\b") "g"
  = Ok {| rx_re := placeholder_re name; rx_global := true |}.
Proof.
  intros H. unfold RegExp_new.
  change (parse_from p_init (lit ":" ++ name ++ lit "\b"))
    with (parse_from (top [Chr (CChar ":")] []) (name ++ lit "\b")).
  rewrite parse_from_app, parse_word_chars by (apply is_ident_word; exact H).
  cbn [bind]. simpl. unfold placeholder_re.
  rewrite rev_app_distr, rev_involutive. reflexivity.
Qed.

Lemma placeholder_re_no_group (name : str) :
  has_group (placeholder_re name) = false.
Proof.
  unfold placeholder_re. simpl. induction name as [|c n IH]; simpl; auto.
Qed.

Lemma parses_names (toks : list token) (s : str) (caps : list (str * str)) :
  Forall wf_token toks -> parses toks s caps ->
  Forall (fun entry => is_ident (fst entry) = true) caps.
Proof.
  intros Hwf Hp. induction Hp; inversion Hwf; subst; auto.
Qed.

Lemma substitute_returns (caps : list (str * str)) (target : str) :
  Forall (fun entry => is_ident (fst entry) = true) caps ->
  exists result,
    foldM (fun result entry =>
             rx <- RegExp_new (":" ++ fst entry ++ "\b") "g" ;;
             String_replace result rx (snd entry)) caps target
    = Ok result.
Proof.
  intros H. revert target.
  induction H as [|[n v] caps Hn _ IH]; intros target; cbn [foldM fst snd].
  - eexists; reflexivity.
  - simpl in Hn. rewrite (RegExp_new_placeholder n Hn). cbn [bind].
    unfold String_replace. cbn [rx_re rx_global].
    rewrite placeholder_re_no_group. cbn [bind]. apply IH.
Qed.

(** The closure of a compiled redirect never throws: it returns [null]
    exactly on the paths that do not read as the pattern does. *)
Lemma Matcher_call_returns (pattern tgt : str) (m : Matcher) (url : str) :
  compile pattern tgt = Ok m ->
  exists r, Matcher_call m url = Ok r
            /\ (r = None <-> forall caps, ~ parses (tokens pattern) url caps).
Proof.
  intros Hc. unfold Matcher_call.
  rewrite (compiled_regex pattern tgt m Hc).
  destruct (String_match_pattern (tokens pattern) url)
    as [found [Hm [Hsome Hnone]]].
  rewrite Hm. cbn [bind]. destruct found as [mr|].
  - destruct (Hsome mr eq_refl) as [_ [_ Hp]].
    destruct (substitute_returns (mr_groups mr) (target m)
                (parses_names _ _ _ (tokens_wf pattern) Hp)) as [res Hres].
    rewrite Hres. cbn [bind]. eexists. split; [reflexivity|].
    split; [discriminate|]. intros H. exfalso. apply (H _ Hp).
  - exists None. split; [reflexivity|]. split; auto.
Qed.

Lemma resolveRedirect_from_returns (existsSync : str -> bool) (root : str)
    (plugin : Plugin) (entries : list (str * str)) (rules : list Matcher)
    (url : str) :
  Forall2 (fun e m => compile (fst e) (snd e) = Ok m) entries rules ->
  exists r, resolveRedirect_from existsSync root plugin rules url = Ok r.
Proof.
  induction 1 as [|e m entries rules Hm _ IH]; simpl.
  - eexists; reflexivity.
  - destruct (Matcher_call_returns (fst e) (snd e) m url Hm) as [r [Hr _]].
    rewrite Hr. cbn [bind]. destruct r as [t|]; [|exact IH].
    destruct (truthy t); [eexists; reflexivity | exact IH].
Qed.

(** The Redirect Resolver of an initialised plugin never throws. *)
Lemma resolveRedirect_returns (existsSync : str -> bool) (root : str)
    (options : Options) (plugin : Plugin) (url : str) :
  viteMultiSpa options = Ok plugin ->
  exists r, resolveRedirect existsSync root plugin url = Ok r.
Proof.
  intros Hinit. unfold viteMultiSpa in Hinit.
  apply bind_Ok in Hinit. destruct Hinit as [ms [Hms Hinit]].
  injection Hinit as <-. unfold resolveRedirect. cbn [redirects].
  apply (resolveRedirect_from_returns _ _ _ (opt_redirects options)).
  apply mapM_Forall2. exact Hms.
Qed.

(** A document request is always handed on: the middleware of an
    initialised plugin does not throw on it. *)
Lemma middleware_document_returns (existsSync : str -> bool)
    (URL_pathname : str -> result str) (root : str)
    (options : Options) (plugin : Plugin) (req : Request) :
  viteMultiSpa options = Ok plugin ->
  sec_fetch_dest req = Some (lit "document") ->
  exists req', middleware existsSync URL_pathname root plugin req = Ok req'.
Proof.
  intros Hinit Hdoc. rewrite (middleware_document _ _ _ _ _ Hdoc).
  destruct (resolveRedirect_returns existsSync root options plugin
              (request_path req) Hinit) as [r Hr].
  rewrite Hr. cbn [bind]. destruct r as [p|]; [eexists; reflexivity|].
  destruct (resolvePageUrl _ _ _ _); eexists; reflexivity.
Qed.

(** * Further properties of the plugin *)

(** ** HTML transforms *)

Lemma handlers_wrapped {Ctx R : Type} (plugin : Plugin)
    (ts : list (str -> str -> Ctx -> R)) :
  handlers (map (fun t => {| plugin_name := "vite-multi-spa:transform-html";
                           transformIndexHtml :=
                             Some (transformPagesOnly plugin t) |}) ts)
  = map (transformPagesOnly plugin) ts.
Proof.
  unfold handlers. induction ts as [|t ts IH]; simpl; [reflexivity|].
  f_equal. exact IH.
Qed.

(** X11: whatever form [transformPageHtml] takes, the plugins returned
    carry every transform once, wrapped by [transformPagesOnly], in the
    order given: the first on the core plugin, the others on plugins of
    their own after the build plugin. *)
Theorem plugins_carry_every_transform {Ctx R : Type} (plugin : Plugin)
    (o : TransformOption (str -> str -> Ctx -> R)) :
  handlers (plugins plugin (transforms o))
  = map (transformPagesOnly plugin) (transforms o)
  /\ length (plugins plugin (transforms o))
     = 2 + (length (transforms o) - 1)
  /\ map plugin_name (firstn 2 (plugins plugin (transforms o)))
     = [lit "vite-multi-spa"; lit "vite-multi-spa:build"].
Proof.
  generalize (transforms o) as ts. intros ts. split; [|split].
  - destruct ts as [|t ts]; [reflexivity|].
    unfold plugins. cbn [skipn].
    change (handlers (?a :: ?b :: ?l)) with
      (match transformIndexHtml a with Some h => [h] | None => [] end
       ++ match transformIndexHtml b with Some h => [h] | None => [] end
       ++ handlers l).
    cbn [transformIndexHtml app]. rewrite handlers_wrapped. reflexivity.
  - unfold plugins. cbn [length]. rewrite length_map, length_skipn. lia.
  - reflexivity.
Qed.

Lemma resolvePageUrl_shape (existsSync : str -> bool) (root : str)
    (plugin : Plugin) (url pageUrl : str) :
  resolvePageUrl existsSync root plugin url = Some pageUrl ->
  pageUrl = "/" ++ pagesRoot plugin ++ url.
Proof.
  unfold resolvePageUrl. destruct (endsWith _ _).
  - destruct (existsSync _); [intros [= <-]; reflexivity | discriminate].
  - destruct (existsSync _); [intros [= <-]; reflexivity | discriminate].
Qed.

(** X10: the HTML file of every page the Page Resolver finds for a path
    that begins with a slash is in the scope of [transformPagesOnly]: the
    wrapped transform runs on it.  On a path that is neither under
    [/<pagesRoot>/] nor [/index.html] the wrapped transform returns
    [undefined] and the transform is not called. *)
Theorem resolved_pages_are_transformed {Ctx R : Type}
    (existsSync : str -> bool) (root : str) (plugin : Plugin)
    (transform : str -> str -> Ctx -> R) (html url pageUrl : str) (ctx : Ctx) :
  startsWith url "/" = true ->
  resolvePageUrl existsSync root plugin url = Some pageUrl ->
  (forall file, transformPagesOnly plugin transform html (pageUrl ++ file) ctx
                = Some (transform html (pageUrl ++ file) ctx))
  /\ (forall path,
        startsWith path ("/" ++ pagesRoot plugin ++ "/") = false ->
        path <> lit "/index.html" ->
        transformPagesOnly plugin transform html path ctx = None).
Proof.
  intros Hurl Hpage. split.
  - intros file. apply resolvePageUrl_shape in Hpage. subst pageUrl.
    apply startsWith_prefix in Hurl. destruct Hurl as [rest ->].
    unfold transformPagesOnly.
    replace ((lit "/" ++ pagesRoot plugin ++ lit "/" ++ rest) ++ file)
      with ((lit "/" ++ pagesRoot plugin ++ lit "/") ++ rest ++ file)
      by (simpl; rewrite <- !app_assoc; reflexivity).
    rewrite startsWith_app. reflexivity.
  - intros path Hout Hne. unfold transformPagesOnly. rewrite Hout.
    apply str_eqb_neq in Hne. rewrite Hne. reflexivity.
Qed.

Lemma resolved_pages_are_transformed_witness :
  transformPagesOnly default_plugin (fun html _ (_ : unit) => html ++ "!")
    "<p>" (lit "/src/pages/contact" ++ lit ".html") tt
  = Some (lit "<p>" ++ lit "!").
Proof.
  apply (proj1 (resolved_pages_are_transformed
                  (files_exist [lit "/app/src/pages/contact.html"]) "/app"
                  default_plugin (fun html _ (_ : unit) => html ++ "!")
                  "<p>" "/contact" "/src/pages/contact" tt
                  eq_refl eq_refl)).
Defined.

(** ** Redirect targets with and without [.html] *)

Lemma endsWith_app (s p : str) : endsWith (s ++ p) p = true.
Proof. unfold endsWith. rewrite rev_app_distr. apply startsWith_app. Qed.

Lemma strip_html_app (t : str) : strip_html (t ++ ".html") = t.
Proof.
  unfold strip_html. rewrite endsWith_app, length_app.
  change (length (lit ".html")) with 5. rewrite Nat.add_sub.
  rewrite firstn_app, Nat.sub_diag, firstn_all. simpl. apply app_nil_r.
Qed.

Lemma startsWith_slash_app (r x : str) :
  x <> [] -> startsWith x "/" = false ->
  startsWith r "/" = false -> startsWith (r ++ x) "/" = false.
Proof.
  intros Hx Hxs Hr. destruct r as [|c r]; simpl in *; [exact Hxs | exact Hr].
Qed.

(** X6: a redirect target names its page with or without a leading slash
    and with or without a trailing [.html]: when the first matching rule
    yields [r.html] or [/r.html], the Redirect Resolver answers what the
    Page Resolver answers for [/r], and the rules after it are not asked. *)
Theorem redirect_target_html_suffix_optional
    (existsSync : str -> bool) (root : str) (plugin : Plugin)
    (m : Matcher) (rules : list Matcher) (url r : str) :
  startsWith r "/" = false ->
  Matcher_call m url = Ok (Some (r ++ ".html"))
  \/ Matcher_call m url = Ok (Some ("/" ++ r ++ ".html"))
  \/ (Matcher_call m url = Ok (Some ("/" ++ r)) /\ endsWith r ".html" = false)
  ->
  resolveRedirect_from existsSync root plugin (m :: rules) url
  = Ok (resolvePageUrl existsSync root plugin ("/" ++ r)).
Proof.
  intros Hr [H|[H|[H He]]];
    rewrite (resolveRedirect_from_hit existsSync root plugin m rules url _ H);
    unfold redirect_page; f_equal; f_equal.
  - rewrite startsWith_slash_app by (auto; discriminate).
    rewrite app_assoc. apply strip_html_app.
  - change (startsWith (lit "/" ++ r ++ lit ".html") "/") with true.
    cbv iota. rewrite app_assoc. apply strip_html_app.
  - change (startsWith (lit "/" ++ r) "/") with true. cbv iota.
    unfold strip_html.
    assert (E : endsWith (lit "/" ++ r) ".html" = endsWith r ".html").
    { unfold endsWith. simpl rev.
      destruct (rev r) as [|a [|b [|c [|d [|e l]]]]]; simpl;
        repeat match goal with
               | |- context [Ascii.eqb ?x ?y] =>
                   destruct (Ascii.eqb x y); simpl
               end; reflexivity. }
    rewrite E, He. reflexivity.
Qed.

Lemma redirect_target_html_suffix_optional_witness :
  resolveRedirect_from (files_exist [lit "/app/src/pages/new.html"]) "/app"
    default_plugin [compiled "/old" "new.html"; compiled "/old" "/other"]
    "/old"
  = Ok (resolvePageUrl (files_exist [lit "/app/src/pages/new.html"]) "/app"
          default_plugin (lit "/" ++ lit "new")).
Proof.
  apply (redirect_target_html_suffix_optional
           (files_exist [lit "/app/src/pages/new.html"]) "/app"
           default_plugin (compiled "/old" "new.html")
           [compiled "/old" "/other"] "/old" "new").
  - reflexivity.
  - left. vm_compute. reflexivity.
Defined.

(** ** Flattened paths *)

Lemma generateBundle_In (plugin : Plugin) (bundle : list (str * OutputFile))
    (k : str) (f : OutputFile) :
  In (k, f) bundle ->
  In (k, flatten plugin f) (generateBundle plugin "client" bundle).
Proof.
  intros H. unfold generateBundle. simpl.
  apply in_map_iff. exists (k, f). split; [reflexivity | exact H].
Qed.

(** X13: flattening keeps apart the assets under the pages root, but an
    asset under the pages root and an asset of the same path at top level
    end up with one and the same output path: a page [<pagesRoot>/x] and a
    root file [x] collide in the flattened bundle. *)
Theorem flattened_paths_collide_with_top_level (plugin : Plugin)
    (bundle : list (str * OutputFile)) (k1 k2 rest : str) :
  In (entry k1 asset ((pagesRoot plugin ++ "/") ++ rest)) bundle ->
  In (entry k2 asset rest) bundle ->
  startsWith rest (pagesRoot plugin ++ "/") = false ->
  In (entry k1 asset rest) (generateBundle plugin "client" bundle)
  /\ In (entry k2 asset rest) (generateBundle plugin "client" bundle)
  /\ (forall a b,
        fileName (flatten plugin
                    {| type := asset;
                       fileName := (pagesRoot plugin ++ "/") ++ a |})
        = fileName (flatten plugin
                      {| type := asset;
                         fileName := (pagesRoot plugin ++ "/") ++ b |}) ->
        a = b).
Proof.
  unfold entry. intros H1 H2 Hrest. split; [|split].
  - apply (generateBundle_In plugin) in H1.
    rewrite flatten_asset_under in H1.
    exact H1.
  - apply (generateBundle_In plugin) in H2.
    rewrite flatten_elsewhere in H2 by exact Hrest. exact H2.
  - intros a b. rewrite !flatten_asset_under. simpl. auto.
Qed.

Lemma flattened_paths_collide_with_top_level_witness :
  In (entry "a" asset "index.html")
    (generateBundle default_plugin "client"
       [entry "a" asset "src/pages/index.html"; entry "b" asset "index.html"])
  /\ In (entry "b" asset "index.html")
       (generateBundle default_plugin "client"
          [entry "a" asset "src/pages/index.html";
           entry "b" asset "index.html"]).
Proof.
  destruct (flattened_paths_collide_with_top_level default_plugin
              [entry "a" asset "src/pages/index.html";
               entry "b" asset "index.html"] "a" "b" "index.html")
    as [H1 [H2 _]].
  - left. reflexivity.
  - right. left. reflexivity.
  - reflexivity.
  - split; [exact H1 | exact H2].
Defined.

(** X14: development and build agree on where a page lives.  When the Page
    Resolver serves the path [/rest] from the page [pageUrl], the HTML file
    of that page, emitted under its path relative to the root, is flattened
    to [rest] followed by the same file suffix: the page served at
    [/contact] is built as [contact.html], the one served at [/docs/] as
    [docs/index.html]. *)
Theorem built_page_lands_at_its_url (existsSync : str -> bool) (root : str)
    (plugin : Plugin) (rest pageUrl file : str) :
  resolvePageUrl existsSync root plugin ("/" ++ rest) = Some pageUrl ->
  flatten plugin {| type := asset;
                    fileName := slice_from 1 pageUrl ++ file |}
  = {| type := asset; fileName := rest ++ file |}.
Proof.
  intros H. apply resolvePageUrl_shape in H. subst pageUrl.
  change (slice_from 1 (lit "/" ++ pagesRoot plugin ++ lit "/" ++ rest))
    with (pagesRoot plugin ++ lit "/" ++ rest).
  replace ((pagesRoot plugin ++ lit "/" ++ rest) ++ file)
    with ((pagesRoot plugin ++ "/") ++ rest ++ file)
    by (rewrite <- !app_assoc; reflexivity).
  apply flatten_asset_under.
Qed.

Lemma built_page_lands_at_its_url_witness :
  flatten default_plugin
    {| type := asset;
       fileName := slice_from 1 (lit "/src/pages/docs/") ++ lit "index.html" |}
  = {| type := asset; fileName := lit "docs/" ++ lit "index.html" |}.
Proof.
  apply (built_page_lands_at_its_url
           (files_exist [lit "/app/src/pages/docs/index.html"]) "/app"
           default_plugin "docs/" "/src/pages/docs/" "index.html").
  reflexivity.
Defined.

(** ** Redirects that do not apply *)

(** X5: no match is not an error.  When the path reads as none of the
    declared patterns (in particular when no redirect is declared), the
    Redirect Resolver of an initialised plugin returns nothing, without
    throwing and without touching the file system. *)
Theorem resolveRedirect_nothing_without_match
    (existsSync : str -> bool) (root : str) (options : Options)
    (plugin : Plugin) (url : str) :
  viteMultiSpa options = Ok plugin ->
  (forall e caps, In e (opt_redirects options) ->
                  ~ parses (tokens (fst e)) url caps) ->
  resolveRedirect existsSync root plugin url = Ok None.
Proof.
  intros Hinit Hno. unfold viteMultiSpa in Hinit.
  apply bind_Ok in Hinit. destruct Hinit as [ms [Hms Hinit]].
  assert (Hr : redirects plugin = ms)
    by (injection Hinit as Hp; rewrite <- Hp; reflexivity).
  unfold resolveRedirect. rewrite Hr. clear Hr Hinit.
  apply mapM_Forall2 in Hms.
  rewrite <- (app_nil_r ms), resolveRedirect_from_skip; [reflexivity|].
  induction Hms as [|e m entries rules Hm _ IH]; constructor.
  - destruct (Matcher_call_returns (fst e) (snd e) m url Hm) as [r [Hr Hiff]].
    rewrite Hr. f_equal. apply Hiff. intros caps.
    apply Hno. left; reflexivity.
  - apply IH. intros e0 caps Hin. apply Hno. right; exact Hin.
Qed.

Lemma not_parses_by_match (pattern url : str) :
  String_match url (regex (compiled pattern "")) = Ok None ->
  compile pattern "" = Ok (compiled pattern "") ->
  forall caps, ~ parses (tokens pattern) url caps.
Proof.
  intros Hm Hc. rewrite (compiled_regex pattern "" _ Hc) in Hm.
  destruct (String_match_pattern (tokens pattern) url)
    as [found [Hf [_ Hnone]]].
  rewrite Hm in Hf. injection Hf as <-. apply Hnone. reflexivity.
Qed.

Lemma resolveRedirect_nothing_without_match_witness :
  resolveRedirect (fun _ => true) "/app" sample_plugin "/about" = Ok None.
Proof.
  apply (resolveRedirect_nothing_without_match (fun _ => true) "/app"
           sample_options sample_plugin "/about").
  - vm_compute. reflexivity.
  - intros e caps [<-|[<-|[<-|[]]]];
      apply not_parses_by_match; vm_compute; reflexivity.
Defined.

(** ** When a pattern compiles *)

Lemma existsb_str_In (n : str) (l : list str) :
  existsb (str_eqb n) l = true <-> In n l.
Proof.
  rewrite existsb_exists. split.
  - intros [x [Hx E]]. apply str_eqb_eq in E. subst. exact Hx.
  - intros H. exists n. split; [exact H | apply str_eqb_eq; reflexivity].
Qed.

Lemma fresh_names_NoDup (l seen : list str) :
  fresh_names seen l = true
  <-> NoDup l /\ (forall n, In n l -> ~ In n seen).
Proof.
  revert seen. induction l as [|n l IH]; intros seen; simpl.
  - split; [intros _; split; [constructor | intros n []] | reflexivity].
  - rewrite andb_true_iff, negb_true_iff, IH. split.
    + intros [Hn [Hnd Hdis]].
      assert (Hseen : ~ In n seen).
      { intros Hin. apply existsb_str_In in Hin. congruence. }
      split.
      * constructor; [|exact Hnd]. intros Hin.
        apply (Hdis n Hin). apply in_or_app. right. left. reflexivity.
      * intros x [<-|Hx]; [exact Hseen|]. intros Hin.
        apply (Hdis x Hx). apply in_or_app. left. exact Hin.
    + intros [Hnd Hdis]. inversion Hnd as [|n' l' Hnotin Hnd']; subst.
      split; [|split; [exact Hnd'|]].
      * destruct (existsb (str_eqb n) seen) eqn:E; [|reflexivity].
        apply existsb_str_In in E. exfalso.
        apply (Hdis n (or_introl eq_refl) E).
      * intros x Hx Hin. apply in_app_or in Hin. destruct Hin as [Hin|[<-|[]]].
        -- apply (Hdis x (or_intror Hx) Hin).
        -- exact (Hnotin Hx).
Qed.

(** X2: a pattern compiles exactly when the names of its groups ([splat]
    for a star, the name of each placeholder) are all different; then its
    regular expression is the one of its tokens.  Otherwise, for instance
    with a placeholder used twice or a star next to [:splat], [new RegExp]
    throws a [SyntaxError]. *)
Theorem compile_iff_distinct_names (pattern target : str) :
  (NoDup (names (tokens pattern)) ->
   compile pattern target
   = Ok {| regex := {| rx_re := pattern_re (tokens pattern);
                       rx_global := false |};
           target := target |})
  /\ (~ NoDup (names (tokens pattern)) ->
      compile pattern target = Throw SyntaxError)
  /\ (forall m, compile pattern target = Ok m ->
                NoDup (names (tokens pattern))).
Proof.
  rewrite compile_regexStr.
  destruct (fresh_names [] (names (tokens pattern))) eqn:F.
  - apply fresh_names_NoDup in F. destruct F as [Hnd _].
    split; [reflexivity|]. split; [contradiction | auto].
  - assert (Hnot : ~ NoDup (names (tokens pattern))).
    { intros Hnd.
      assert (T : fresh_names [] (names (tokens pattern)) = true)
        by (apply fresh_names_NoDup; split; [exact Hnd | intros n _ []]).
      congruence. }
    split; [contradiction|]. split; [reflexivity | discriminate].
Qed.

(** A name used twice, and a star next to [:splat]. *)
Example duplicate_names_throw :
  compile "/:id/posts/:id" "/t" = Throw SyntaxError
  /\ compile "/*/:splat" "/t" = Throw SyntaxError
  /\ compile "/:a/:b/*" "/t" = Ok (compiled "/:a/:b/*" "/t").
Proof. repeat split; vm_compute; reflexivity. Qed.

(** ** The directory of a page *)

Lemma lastIndexOf_from_none (c : ascii) (s : str) (i : Z) :
  forallb (fun x => negb (Ascii.eqb x c)) s = true ->
  lastIndexOf_from i c s = (-1)%Z.
Proof.
  revert i. induction s as [|x s IH]; intros i H; simpl; [reflexivity|].
  simpl in H. apply andb_true_iff in H. destruct H as [Hx Hs].
  rewrite IH by exact Hs. simpl.
  apply negb_true_iff in Hx. rewrite Hx. reflexivity.
Qed.

Lemma lastIndexOf_from_last (c : ascii) (a b : str) (i : Z) :
  (0 <= i)%Z ->
  forallb (fun x => negb (Ascii.eqb x c)) b = true ->
  lastIndexOf_from i c (a ++ c :: b) = (i + Z.of_nat (length a))%Z.
Proof.
  revert i. induction a as [|x a IH]; intros i Hi Hb.
  - simpl. rewrite lastIndexOf_from_none by exact Hb. simpl.
    rewrite Ascii.eqb_refl. lia.
  - cbn [app lastIndexOf_from length]. rewrite IH by (lia || exact Hb).
    destruct (0 <=? i + 1 + Z.of_nat (length a))%Z eqn:E; [lia|].
    apply Z.leb_gt in E. lia.
Qed.

Lemma page_directory_last_slash (dir seg : str) :
  no_slash seg = true -> page_directory (dir ++ "/" ++ seg) = dir.
Proof.
  intros H. unfold page_directory, lastIndexOf.
  change (dir ++ lit "/" ++ seg) with (dir ++ "/"%char :: seg).
  rewrite lastIndexOf_from_last by (lia || exact H).
  unfold slice_to. simpl Z.add.
  destruct (Z.of_nat (length dir) <? 0)%Z eqn:E; [apply Z.ltb_lt in E; lia|].
  rewrite Nat2Z.id, firstn_app, Nat.sub_diag, firstn_all. simpl.
  apply app_nil_r.
Qed.

(** X7: page-relative assets are looked up next to the page.  For a page
    found for the path [d/seg], where [seg] holds no slash (it is empty for
    a directory page served from its [index.html]), the asset location of a
    request is [/<pagesRoot>d] followed by the request path. *)
Theorem assets_resolve_next_to_page (existsSync : str -> bool) (root : str)
    (plugin : Plugin) (d seg pageUrl : str) (req : Request) :
  resolvePageUrl existsSync root plugin (d ++ "/" ++ seg) = Some pageUrl ->
  no_slash seg = true ->
  page_directory pageUrl = "/" ++ pagesRoot plugin ++ d
  /\ asset_url pageUrl req = "/" ++ pagesRoot plugin ++ d ++ request_path req.
Proof.
  intros Hpage Hseg. apply resolvePageUrl_shape in Hpage.
  assert (E : page_directory pageUrl = lit "/" ++ pagesRoot plugin ++ d).
  { subst pageUrl.
    replace (lit "/" ++ pagesRoot plugin ++ d ++ lit "/" ++ seg)
      with ((lit "/" ++ pagesRoot plugin ++ d) ++ lit "/" ++ seg)
      by (rewrite <- !app_assoc; reflexivity).
    apply page_directory_last_slash. exact Hseg. }
  split; [exact E|]. unfold asset_url. rewrite E.
  rewrite <- !app_assoc. reflexivity.
Qed.

Lemma assets_resolve_next_to_page_witness :
  page_directory "/src/pages/docs/" = lit "/" ++ lit "src/pages" ++ lit "/docs"
  /\ asset_url "/src/pages/docs/"
       (asset_request "/logo.png" "image" "http://localhost/docs/")
     = lit "/" ++ lit "src/pages" ++ lit "/docs"
       ++ request_path (asset_request "/logo.png" "image"
                          "http://localhost/docs/").
Proof.
  apply (assets_resolve_next_to_page
           (files_exist [lit "/app/src/pages/docs/index.html"]) "/app"
           default_plugin "/docs" "" "/src/pages/docs/"
           (asset_request "/logo.png" "image" "http://localhost/docs/")).
  - reflexivity.
  - reflexivity.
Defined.

(** ** What the middleware does to a request *)

Lemma startsWith_app_l (s t p : str) :
  startsWith s p = true -> startsWith (s ++ t) p = true.
Proof.
  intros H. apply startsWith_prefix in H. destruct H as [r ->].
  rewrite <- app_assoc. apply startsWith_app.
Qed.

Lemma last_slash_split (s : str) :
  no_slash s = true
  \/ exists a b, s = a ++ "/"%char :: b /\ no_slash b = true.
Proof.
  induction s as [|c s IH]; [left; reflexivity|].
  destruct IH as [H|[a [b [-> H]]]].
  - destruct (Ascii.eqb c "/") eqn:E.
    + apply Ascii.eqb_eq in E. subst c. right. exists [], s. auto.
    + left. unfold no_slash in *. simpl. rewrite E, H. reflexivity.
  - right. exists (c :: a), b. auto.
Qed.

Lemma page_directory_under (pr u : str) :
  startsWith u "/" = true ->
  startsWith (page_directory ("/" ++ pr ++ u)) ("/" ++ pr) = true.
Proof.
  intros H. apply startsWith_prefix in H. destruct H as [rest ->].
  destruct (last_slash_split rest) as [Hn|[a [b [-> Hn]]]].
  - replace (lit "/" ++ pr ++ lit "/" ++ rest)
      with ((lit "/" ++ pr) ++ lit "/" ++ rest)
      by (rewrite <- !app_assoc; reflexivity).
    rewrite page_directory_last_slash by exact Hn.
    rewrite <- (app_nil_r (lit "/" ++ pr)) at 1. apply startsWith_app.
  - replace (lit "/" ++ pr ++ lit "/" ++ a ++ "/"%char :: b)
      with ((lit "/" ++ pr ++ lit "/" ++ a) ++ lit "/" ++ b)
      by (simpl; rewrite <- !app_assoc; reflexivity).
    rewrite page_directory_last_slash by exact Hn.
    replace (lit "/" ++ pr ++ lit "/" ++ a)
      with ((lit "/" ++ pr) ++ lit "/" ++ a)
      by (rewrite <- !app_assoc; reflexivity).
    apply startsWith_app.
Qed.

Lemma endsWith_suffix (s p : str) :
  endsWith s p = true -> exists y, s = y ++ p.
Proof.
  unfold endsWith. intros H. apply startsWith_prefix in H.
  destruct H as [t H]. exists (rev t).
  rewrite <- (rev_involutive s), H, rev_app_distr, rev_involutive.
  reflexivity.
Qed.

Lemma strip_html_keeps_slash (x : str) :
  startsWith x "/" = true -> startsWith (strip_html x) "/" = true.
Proof.
  intros H. unfold strip_html. destruct (endsWith x ".html") eqn:E; [|exact H].
  apply endsWith_suffix in E. destruct E as [y ->].
  rewrite length_app. change (length (lit ".html")) with 5.
  rewrite Nat.add_sub, firstn_app, Nat.sub_diag, firstn_all. simpl firstn.
  rewrite app_nil_r. destruct y as [|c y]; [discriminate H | exact H].
Qed.

(** Every page the Redirect Resolver returns is a page of the Page
    Resolver for a path that begins with a slash. *)
Lemma resolveRedirect_from_shape (existsSync : str -> bool) (root : str)
    (plugin : Plugin) (rules : list Matcher) (url p : str) :
  resolveRedirect_from existsSync root plugin rules url = Ok (Some p) ->
  exists u, startsWith u "/" = true /\ p = "/" ++ pagesRoot plugin ++ u.
Proof.
  induction rules as [|m rules IH]; [discriminate|].
  destruct (Matcher_call m url) as [[t|]|e] eqn:M.
  - rewrite (resolveRedirect_from_hit existsSync root plugin m rules url t M).
    intros H.
    assert (H' : redirect_page existsSync root plugin t = Some p)
      by congruence.
    unfold redirect_page in H'. apply resolvePageUrl_shape in H'.
    eexists. split; [|exact H'].
    apply strip_html_keeps_slash.
    destruct (startsWith t "/") eqn:E; [exact E | reflexivity].
  - change (m :: rules) with ([m] ++ rules).
    rewrite resolveRedirect_from_skip by (constructor; [exact M | constructor]).
    exact IH.
  - cbn [resolveRedirect_from]. rewrite M. discriminate.
Qed.

(** X8: the middleware leaves the headers alone, and it either hands the
    request on as it came or rewrites it to a path under [/<pagesRoot>] and
    deletes [originalUrl]; this as soon as the URL parser gives paths that
    begin with a slash, as it does for [http] referrers. *)
Theorem middleware_rewrites_under_pages_root
    (existsSync : str -> bool) (URL_pathname : str -> result str)
    (root : str) (plugin : Plugin) (req req' : Request) :
  (forall r p, URL_pathname r = Ok p -> startsWith p "/" = true) ->
  middleware existsSync URL_pathname root plugin req = Ok req' ->
  sec_fetch_dest req' = sec_fetch_dest req
  /\ referer req' = referer req
  /\ (req' = req
      \/ (originalUrl req' = None
          /\ startsWith (url req') ("/" ++ pagesRoot plugin) = true)).
Proof.
  intros Hurl. unfold middleware.
  set (path := nth 0 (split "?" (url req)) []).
  set (suffix := if truthy (nth 1 (split "?" (url req)) [])
                 then lit "?" ++ nth 1 (split "?" (url req)) [] else []).
  assert (Same : forall r, Ok req = Ok r ->
            sec_fetch_dest r = sec_fetch_dest req /\ referer r = referer req
            /\ (r = req \/ (originalUrl r = None
                            /\ startsWith (url r) ("/" ++ pagesRoot plugin)
                               = true)))
    by (intros r [= <-]; auto).
  assert (Rewr : forall x r,
            startsWith x ("/" ++ pagesRoot plugin) = true ->
            Ok (rewrite req (x ++ suffix)) = Ok r ->
            sec_fetch_dest r = sec_fetch_dest req /\ referer r = referer req
            /\ (r = req \/ (originalUrl r = None
                            /\ startsWith (url r) ("/" ++ pagesRoot plugin)
                               = true))).
  { intros x r Hx [= <-].
    split; [reflexivity|]. split; [reflexivity|]. right.
    split; [reflexivity|]. simpl url. apply startsWith_app_l. exact Hx. }
  assert (Under : forall u,
            startsWith ("/" ++ pagesRoot plugin ++ u) ("/" ++ pagesRoot plugin)
            = true).
  { intros u.
    replace (lit "/" ++ pagesRoot plugin ++ u)
      with ((lit "/" ++ pagesRoot plugin) ++ u)
      by (rewrite <- app_assoc; reflexivity).
    apply startsWith_app. }
  assert (Asset : forall u r,
            startsWith u "/" = true ->
            Ok (rewrite req
                  ((slice_to (lastIndexOf "/" ("/" ++ pagesRoot plugin ++ u))
                             ("/" ++ pagesRoot plugin ++ u) ++ path)
                   ++ suffix)) = Ok r ->
            sec_fetch_dest r = sec_fetch_dest req /\ referer r = referer req
            /\ (r = req \/ (originalUrl r = None
                            /\ startsWith (url r) ("/" ++ pagesRoot plugin)
                               = true))).
  { intros u r Hu. apply Rewr. apply startsWith_app_l.
    apply (page_directory_under (pagesRoot plugin) u Hu). }
  destruct (sec_fetch_dest req) as [d|]; [|apply Same].
  destruct (str_eqb d "document").
  - destruct (resolveRedirect existsSync root plugin path) as [[p|]|e] eqn:R;
      cbn [bind]; [| |discriminate].
    + unfold resolveRedirect in R. apply resolveRedirect_from_shape in R.
      destruct R as [u [_ ->]]. apply Rewr. apply Under.
    + destruct (resolvePageUrl existsSync root plugin path) as [p|] eqn:P;
        [|apply Same].
      apply resolvePageUrl_shape in P. subst p. apply Rewr. apply Under.
  - destruct (truthy d && is_truthy (referer req)); [|apply Same].
    destruct (startsWith path "/@vite/"); [apply Same|].
    destruct (URL_pathname _) as [pathname|e] eqn:U; cbn [bind]; [|discriminate].
    apply Hurl in U.
    destruct (resolveRedirect existsSync root plugin pathname)
      as [[p|]|e] eqn:R; cbn [bind]; [| |discriminate].
    + unfold resolveRedirect in R. apply resolveRedirect_from_shape in R.
      destruct R as [u [Hu ->]].
      destruct (negb (existsSync (path_join [root; path]))); [|apply Same].
      destruct (existsSync _); [apply Asset; exact Hu | apply Same].
    + destruct (resolvePageUrl existsSync root plugin pathname) as [p|] eqn:P;
        [|apply Same].
      apply resolvePageUrl_shape in P. subst p.
      destruct (negb (existsSync (path_join [root; path]))); [|apply Same].
      destruct (existsSync _); [apply Asset; exact U | apply Same].
Qed.

Lemma sample_pathname_slash (r p : str) :
  sample_pathname r = Ok p -> startsWith p "/" = true.
Proof.
  unfold sample_pathname.
  destruct (startsWith r "http://localhost/") eqn:E; [|discriminate].
  apply startsWith_prefix in E. destruct E as [t ->]. intros [= <-].
  reflexivity.
Qed.

Lemma middleware_rewrites_under_pages_root_witness :
  sec_fetch_dest (rewrite (asset_request "/logo.png?v=1" "image"
                             "http://localhost/contact")
                    "/src/pages/logo.png?v=1")
  = sec_fetch_dest (asset_request "/logo.png?v=1" "image"
                      "http://localhost/contact")
  /\ referer (rewrite (asset_request "/logo.png?v=1" "image"
                         "http://localhost/contact")
                "/src/pages/logo.png?v=1")
     = referer (asset_request "/logo.png?v=1" "image"
                  "http://localhost/contact")
  /\ (rewrite (asset_request "/logo.png?v=1" "image"
                 "http://localhost/contact") "/src/pages/logo.png?v=1"
      = asset_request "/logo.png?v=1" "image" "http://localhost/contact"
      \/ (originalUrl (rewrite (asset_request "/logo.png?v=1" "image"
                                  "http://localhost/contact")
                         "/src/pages/logo.png?v=1") = None
          /\ startsWith (url (rewrite (asset_request "/logo.png?v=1" "image"
                                         "http://localhost/contact")
                                "/src/pages/logo.png?v=1"))
               ("/" ++ pagesRoot default_plugin) = true)).
Proof.
  apply (middleware_rewrites_under_pages_root
           (files_exist [lit "/app/src/pages/contact.html";
                         lit "/app/src/pages/logo.png"])
           sample_pathname "/app" default_plugin
           (asset_request "/logo.png?v=1" "image" "http://localhost/contact")).
  - exact sample_pathname_slash.
  - vm_compute. reflexivity.
Defined.

(** X15: the only exception the middleware of an initialised plugin lets
    through is the one [new URL] throws on the referrer of a sub-resource
    request; a document request, and a request without referrer, are always
    handed to the next handler. *)
Theorem middleware_throws_only_on_referer
    (existsSync : str -> bool) (URL_pathname : str -> result str)
    (root : str) (options : Options) (plugin : Plugin)
    (req : Request) (e : exn) :
  viteMultiSpa options = Ok plugin ->
  middleware existsSync URL_pathname root plugin req = Throw e ->
  exists d r,
    sec_fetch_dest req = Some d /\ d <> lit "document"
    /\ referer req = Some r /\ URL_pathname r = Throw e.
Proof.
  intros Hinit. unfold middleware.
  set (path := nth 0 (split "?" (url req)) []).
  destruct (sec_fetch_dest req) as [d|] eqn:D; [|discriminate].
  destruct (str_eqb d "document") eqn:Doc.
  - destruct (resolveRedirect_returns existsSync root options plugin path Hinit)
      as [r Hr].
    rewrite Hr. cbn [bind]. destruct r; [discriminate|].
    destruct (resolvePageUrl _ _ _ _); discriminate.
  - destruct (truthy d && is_truthy (referer req)) eqn:T; [|discriminate].
    destruct (startsWith path "/@vite/"); [discriminate|].
    apply andb_true_iff in T. destruct T as [_ T].
    destruct (referer req) as [r|] eqn:Ref; [|discriminate].
    destruct (URL_pathname r) as [pathname|e'] eqn:U; cbn [bind].
    + destruct (resolveRedirect_returns existsSync root options plugin
                  pathname Hinit) as [x Hx].
      rewrite Hx. cbn [bind].
      destruct (match x with Some p => Some p | None => _ end);
        [|discriminate].
      destruct (negb _); [|discriminate].
      destruct (existsSync _); discriminate.
    + intros [= ->]. exists d, r.
      split; [reflexivity|]. split; [apply str_eqb_neq; exact Doc|].
      split; [reflexivity | exact U].
Qed.

Lemma middleware_throws_only_on_referer_witness :
  exists d r,
    sec_fetch_dest (asset_request "/logo.png" "image" "contact") = Some d
    /\ d <> lit "document"
    /\ referer (asset_request "/logo.png" "image" "contact") = Some r
    /\ sample_pathname r = Throw TypeError.
Proof.
  apply (middleware_throws_only_on_referer (fun _ => true) sample_pathname
           "/app" sample_options sample_plugin
           (asset_request "/logo.png" "image" "contact") TypeError).
  - vm_compute. reflexivity.
  - vm_compute. reflexivity.
Defined.

(** X9: the [redirects] option costs nothing when it is not used.  With no
    redirect declared, and on a request whose URL holds no question mark,
    the middleware does what the middleware of the plugin did before the
    option existed. *)
Theorem middleware_without_redirects_is_v1
    (existsSync : str -> bool) (URL_pathname : str -> result str)
    (root : str) (plugin : Plugin) (req : Request) :
  redirects plugin = [] ->
  count_occ ascii_dec (url req) "?"%char = 0 ->
  middleware existsSync URL_pathname root plugin req
  = middleware_v1 existsSync URL_pathname root plugin req.
Proof.
  intros Hnone Hq. unfold middleware, middleware_v1, resolveRedirect.
  rewrite Hnone, (split_no_separator "?" (url req) Hq).
  cbn [nth truthy resolveRedirect_from bind].
  destruct (sec_fetch_dest req) as [d|]; [|reflexivity].
  destruct (str_eqb d "document").
  - destruct (resolvePageUrl _ _ _ _); [|reflexivity].
    rewrite app_nil_r. reflexivity.
  - destruct (truthy d && is_truthy (referer req)); [|reflexivity].
    destruct (startsWith (url req) "/@vite/"); [reflexivity|].
    destruct (URL_pathname _); cbn [bind]; [|reflexivity].
    destruct (resolvePageUrl _ _ _ _); [|reflexivity].
    destruct (negb _); [|reflexivity].
    rewrite app_nil_r. reflexivity.
Qed.

Lemma middleware_without_redirects_is_v1_witness :
  middleware (files_exist [lit "/app/src/pages/contact.html"])
    sample_pathname "/app" default_plugin (document_request "/contact")
  = middleware_v1 (files_exist [lit "/app/src/pages/contact.html"])
      sample_pathname "/app" default_plugin (document_request "/contact").
Proof.
  apply (middleware_without_redirects_is_v1
           (files_exist [lit "/app/src/pages/contact.html"])
           sample_pathname "/app" default_plugin
           (document_request "/contact")).
  - reflexivity.
  - reflexivity.
Defined.

(** Before the option, a query kept a document request from its page. *)
Example v1_misses_page_with_query :
  middleware_v1 (files_exist [lit "/app/src/pages/contact.html"])
    sample_pathname "/app" default_plugin (document_request "/contact?a=1")
  = Ok (document_request "/contact?a=1")
  /\ middleware (files_exist [lit "/app/src/pages/contact.html"])
       sample_pathname "/app" default_plugin (document_request "/contact?a=1")
     = Ok (rewrite (document_request "/contact?a=1")
             "/src/pages/contact?a=1").
Proof. split; vm_compute; reflexivity. Qed.

(** ** The pages root *)

Lemma split_no_slash (s : str) :
  Forall (fun seg => no_slash seg = true) (split "/" s).
Proof.
  induction s as [|x s IH]; simpl; [repeat constructor|].
  destruct (Ascii.eqb x "/") eqn:E; [constructor; [reflexivity | exact IH]|].
  destruct (split "/" s) as [|p ps].
  - constructor; [|constructor]. unfold no_slash. simpl. rewrite E. reflexivity.
  - inversion IH as [|p' ps' Hp Hps]; subst. constructor; [|exact Hps].
    unfold no_slash in *. simpl. rewrite E, Hp. reflexivity.
Qed.

Lemma normalizeSegments_segments (above : bool) (segs res : list str) :
  Forall (fun seg => no_slash seg = true) segs ->
  Forall is_segment res ->
  Forall is_segment (normalizeSegments above res segs).
Proof.
  intros Hsegs. revert res.
  induction Hsegs as [|seg segs Hseg _ IH]; intros res Hres;
    cbn [normalizeSegments].
  - apply Forall_rev. exact Hres.
  - destruct (str_eqb seg "" || str_eqb seg ".") eqn:E; [apply IH; exact Hres|].
    apply orb_false_iff in E. destruct E as [Hne _].
    apply str_eqb_neq in Hne.
    assert (Hs : is_segment seg) by (split; assumption).
    destruct (str_eqb seg "..").
    + destruct res as [|last res'].
      * apply IH. destruct above; repeat constructor; assumption.
      * inversion Hres; subst. destruct (str_eqb last "..").
        -- apply IH. destruct above; [constructor|]; assumption.
        -- apply IH. assumption.
    + apply IH. constructor; assumption.
Qed.

Lemma endsWith_slash_app (a b : str) :
  b <> [] -> endsWith (a ++ b) "/" = endsWith b "/".
Proof.
  intros Hb. unfold endsWith. rewrite rev_app_distr.
  destruct (rev b) as [|x l] eqn:E; [|reflexivity].
  exfalso. apply Hb. rewrite <- (rev_involutive b), E. reflexivity.
Qed.

Lemma segment_no_outer_slash (p : str) :
  is_segment p -> startsWith p "/" = false /\ endsWith p "/" = false.
Proof.
  intros [Hne Hns]. unfold no_slash in Hns. rewrite forallb_forall in Hns.
  assert (Hc : forall c, In c p -> Ascii.eqb "/" c = false).
  { intros c Hc. specialize (Hns c Hc). apply negb_true_iff in Hns.
    rewrite Ascii.eqb_sym. exact Hns. }
  split.
  - destruct (startsWith p "/") eqn:E; [|reflexivity].
    apply startsWith_prefix in E. destruct E as [t ->].
    specialize (Hc "/"%char (or_introl eq_refl)). discriminate.
  - destruct (endsWith p "/") eqn:E; [|reflexivity].
    apply endsWith_suffix in E. destruct E as [y ->].
    assert (Hin : In "/"%char (y ++ lit "/"))
      by (apply in_or_app; right; left; reflexivity).
    specialize (Hc "/"%char Hin). discriminate.
Qed.

Lemma join_no_outer_slash (l : list str) :
  Forall is_segment l ->
  startsWith (join "/" l) "/" = false /\ endsWith (join "/" l) "/" = false
  /\ (l <> [] -> join "/" l <> []).
Proof.
  induction 1 as [|p l Hp Hl IH]; [repeat split; congruence|].
  destruct (segment_no_outer_slash p Hp) as [Hs He].
  destruct l as [|q l].
  - simpl. repeat split; try assumption. intros _. apply Hp.
  - destruct IH as [_ [IHe IHne]].
    change (join "/" (p :: q :: l)) with (p ++ "/"%char :: join "/" (q :: l)).
    split; [|split].
    + destruct p as [|c p]; [destruct Hp; congruence | exact Hs].
    + change (p ++ "/"%char :: join "/" (q :: l))
        with (p ++ ["/"%char] ++ join "/" (q :: l)).
      rewrite app_assoc, endsWith_slash_app by (apply IHne; discriminate).
      exact IHe.
    + intros _. destruct p; discriminate.
Qed.

Lemma trim_slashes_normalize (s : str) :
  startsWith (trim_slashes (path_normalize s)) "/" = false
  /\ endsWith (trim_slashes (path_normalize s)) "/" = false.
Proof.
  unfold path_normalize. destruct s as [|c s]; [split; reflexivity|].
  set (path := c :: s).
  set (absolute := startsWith path "/").
  assert (Hp : Forall is_segment
                 (normalizeSegments (negb absolute) [] (split "/" path)))
    by (apply normalizeSegments_segments; [apply split_no_slash | constructor]).
  apply join_no_outer_slash in Hp. destruct Hp as [Hs [He _]].
  fold (normalizeString path (negb absolute)) in Hs, He.
  destruct (normalizeString path (negb absolute)) as [|x p] eqn:N.
  - destruct absolute; [split; reflexivity|].
    destruct (endsWith path "/"); split; reflexivity.
  - set (body := x :: p) in *.
    assert (T1 : trim_slashes body = body).
    { unfold trim_slashes. rewrite Hs, He. reflexivity. }
    assert (T2 : trim_slashes (body ++ "/") = body).
    { unfold trim_slashes.
      replace (startsWith (body ++ "/") "/") with false
        by (symmetry; exact Hs).
      rewrite endsWith_app, length_app.
      change (length (lit "/")) with 1.
      rewrite Nat.add_sub, firstn_app, Nat.sub_diag, firstn_all.
      cbn [firstn]. apply app_nil_r. }
    destruct absolute, (endsWith path "/").
    + change (trim_slashes (lit "/" ++ body ++ lit "/"))
        with (if endsWith (body ++ lit "/") "/"
              then firstn (length (body ++ lit "/") - 1) (body ++ lit "/")
              else body ++ lit "/").
      rewrite endsWith_app, length_app.
      change (length (lit "/")) with 1.
      rewrite Nat.add_sub, firstn_app, Nat.sub_diag, firstn_all.
      cbn [firstn]. rewrite app_nil_r. split; assumption.
    + change (trim_slashes (lit "/" ++ body))
        with (if endsWith body "/"
              then firstn (length body - 1) body else body).
      rewrite He. split; assumption.
    + rewrite T2. split; assumption.
    + rewrite T1. split; assumption.
Qed.

(** X1: the pages root the plugin works with never begins or ends with a
    slash, whatever [options.pagesRoot] holds, and it is [src/pages] when
    the option is absent or the empty string. *)
Theorem pagesRoot_has_no_outer_slash (options : Options) (plugin : Plugin) :
  viteMultiSpa options = Ok plugin ->
  startsWith (pagesRoot plugin) "/" = false
  /\ endsWith (pagesRoot plugin) "/" = false
  /\ (opt_pagesRoot options = None \/ opt_pagesRoot options = Some []
      -> pagesRoot plugin = lit "src/pages").
Proof.
  intros Hinit. unfold viteMultiSpa in Hinit.
  apply bind_Ok in Hinit. destruct Hinit as [ms [_ Hinit]].
  injection Hinit as <-. cbn [pagesRoot].
  destruct (opt_pagesRoot options) as [p|].
  - destruct p as [|c p]; cbn [truthy].
    + repeat split; reflexivity.
    + destruct (trim_slashes_normalize (c :: p)) as [Hs He].
      split; [exact Hs|]. split; [exact He|].
      intros [H|H]; discriminate.
  - repeat split; reflexivity.
Qed.

Lemma pagesRoot_has_no_outer_slash_witness :
  startsWith (lit "a/c") "/" = false
  /\ endsWith (lit "a/c") "/" = false
  /\ (Some (lit "/./a//b/../c/") = None \/ Some (lit "/./a//b/../c/") = Some []
      -> lit "a/c" = lit "src/pages").
Proof.
  apply (pagesRoot_has_no_outer_slash
           {| opt_pagesRoot := Some (lit "/./a//b/../c/"); opt_redirects := [] |}
           {| pagesRoot := "a/c"; redirects := [] |}).
  vm_compute. reflexivity.
Defined.

(** ** Targets without placeholder *)

Lemma replace_without_colon (r : re) (global : bool) (v whole s : str)
    (pos : nat) (p : option ascii) :
  forallb (fun c => negb (Ascii.eqb c ":")) s = true ->
  replace_from (Cat (Chr (CChar ":")) r) global v whole pos p s 0 true = s.
Proof.
  revert pos p. induction s as [|c s IH]; intros pos p H; [reflexivity|].
  simpl in H. apply andb_true_iff in H. destruct H as [Hc Hs].
  apply negb_true_iff in Hc. rewrite Ascii.eqb_sym in Hc.
  cbn [replace_from run m_rest accepts flat_map]. rewrite Hc.
  cbn [flat_map]. f_equal. apply IH. exact Hs.
Qed.

Lemma substitute_without_colon (caps : list (str * str)) (tgt : str) :
  Forall (fun entry => is_ident (fst entry) = true) caps ->
  forallb (fun c => negb (Ascii.eqb c ":")) tgt = true ->
  foldM (fun result entry =>
           rx <- RegExp_new (":" ++ fst entry ++ "\b") "g" ;;
           String_replace result rx (snd entry)) caps tgt
  = Ok tgt.
Proof.
  intros Hcaps Htgt. induction Hcaps as [|[n v] caps Hn _ IH];
    cbn [foldM fst snd]; [reflexivity|].
  simpl in Hn. rewrite (RegExp_new_placeholder n Hn). cbn [bind].
  unfold String_replace. cbn [rx_re rx_global].
  rewrite placeholder_re_no_group. cbn [bind].
  unfold placeholder_re.
  change (seq (Chr (CChar ":") :: ?l)) with (Cat (Chr (CChar ":")) (seq l)).
  rewrite replace_without_colon by exact Htgt. exact IH.
Qed.

Lemma compiled_target (pattern tgt : str) (m : Matcher) :
  compile pattern tgt = Ok m -> target m = tgt.
Proof.
  unfold compile. intros H. apply bind_Ok in H.
  destruct H as [rx [_ H]]. injection H as <-. reflexivity.
Qed.

(** X4: a target that holds no colon is returned as it is, normalised,
    whatever the pattern captured: a matching rule [/blog/*] with target
    [/blog-post] always gives [/blog-post]. *)
Theorem target_without_colon_is_kept
    (pattern tgt : str) (m : Matcher) (url : str) (caps : list (str * str)) :
  compile pattern tgt = Ok m ->
  forallb (fun c => negb (Ascii.eqb c ":")) tgt = true ->
  parses (tokens pattern) url caps ->
  Matcher_call m url = Ok (Some (normalizePath tgt)).
Proof.
  intros Hc Htgt Hp. unfold Matcher_call.
  rewrite (compiled_regex pattern tgt m Hc), (compiled_target pattern tgt m Hc).
  destruct (String_match_pattern (tokens pattern) url)
    as [found [Hm [Hsome Hnone]]].
  rewrite Hm. cbn [bind]. destruct found as [mr|].
  - destruct (Hsome mr eq_refl) as [_ [_ Hmr]].
    rewrite (substitute_without_colon (mr_groups mr) tgt
               (parses_names _ _ _ (tokens_wf pattern) Hmr) Htgt).
    reflexivity.
  - exfalso. apply (Hnone eq_refl caps Hp).
Qed.

Lemma target_without_colon_is_kept_witness :
  Matcher_call (compiled "/blog/*" "/blog-post") "/blog/2024/hello"
  = Ok (Some (normalizePath "/blog-post")).
Proof.
  apply (target_without_colon_is_kept "/blog/*" "/blog-post"
           (compiled "/blog/*" "/blog-post") "/blog/2024/hello"
           [(lit "splat", lit "2024/hello")]).
  - vm_compute. reflexivity.
  - reflexivity.
  - change (tokens "/blog/*") with (map Text "/blog/" ++ [Splat]).
    change (lit "/blog/2024/hello") with (lit "/blog/" ++ lit "2024/hello" ++ []).
    change [(lit "splat", lit "2024/hello")]
      with ([] ++ [(lit "splat", lit "2024/hello")]).
    apply parses_app; [apply parses_plain; auto|].
    constructor; [reflexivity | constructor].
Defined.

(** ** A star at the end of a pattern *)

Lemma starts_ident_app_star (s : str) :
  starts_ident (s ++ "*") = starts_ident s.
Proof. destruct s; reflexivity. Qed.

Lemma tokens_plain_star (pre : str) :
  plain pre = true -> tokens (pre ++ "*") = map Text pre ++ [Splat].
Proof.
  unfold tokens. induction pre as [|c s IH]; [reflexivity|].
  simpl plain. rewrite !andb_true_iff, !negb_true_iff.
  intros [[Hs Hc] Hp]. cbn [app map].
  rewrite (scan_text c (s ++ "*") Hs)
    by (rewrite starts_ident_app_star; exact Hc).
  rewrite IH by exact Hp. reflexivity.
Qed.

Lemma parses_text_prefix (pre : str) (toks : list token) (url : str)
    (caps : list (str * str)) :
  parses (map Text pre ++ toks) url caps
  <-> exists rest, url = pre ++ rest /\ parses toks rest caps.
Proof.
  revert url. induction pre as [|c s IH]; intros url; cbn [map app].
  - split; [intros H; exists url; auto | intros [rest [-> H]]; exact H].
  - split.
    + intros H. inversion H; subst.
      match goal with
      | Hp : parses (map Text s ++ toks) _ caps |- _ =>
          apply IH in Hp; destruct Hp as [rest [-> Hp]]
      end.
      exists rest. auto.
    + intros [rest [-> H]]. constructor. apply IH. exists rest. auto.
Qed.

Lemma parses_splat_only (rest : str) (caps : list (str * str)) :
  parses [Splat] rest caps
  <-> no_line_terminator rest = true /\ caps = [(lit "splat", rest)].
Proof.
  split.
  - intros H. inversion H; subst.
    match goal with Hn : parses [] _ _ |- _ => inversion Hn; subst end.
    rewrite app_nil_r. auto.
  - intros [Hn ->]. rewrite <- (app_nil_r rest) at 1.
    constructor; [exact Hn | constructor].
Qed.

(** X3: a pattern made of plain text and a final star matches exactly the
    paths that begin with the text and go on without line terminator, the
    empty continuation included, and captures the continuation as [splat]:
    [/blog/*] matches [/blog/], [/blog/a] and [/blog/a/b], not [/blog]. *)
Theorem prefix_star_matches_every_continuation (pre tgt : str) :
  plain pre = true ->
  exists m,
    compile (pre ++ "*") tgt = Ok m
    /\ (forall v, no_line_terminator v = true ->
          String_match (pre ++ v) (regex m)
          = Ok (Some {| mr_index := 0; mr_text := pre ++ v;
                        mr_groups := [(lit "splat", v)] |}))
    /\ (forall url,
          (forall v, url = pre ++ v -> no_line_terminator v = false) ->
          String_match url (regex m) = Ok None).
Proof.
  intros Hplain.
  assert (Htok : tokens (pre ++ "*") = map Text pre ++ [Splat])
    by (apply tokens_plain_star; exact Hplain).
  assert (Hnames : names (map Text pre ++ [Splat]) = [lit "splat"])
    by (clear; induction pre; simpl; auto).
  assert (Hc : compile (pre ++ "*") tgt
               = Ok {| regex := {| rx_re := pattern_re (tokens (pre ++ "*"));
                                   rx_global := false |};
                       target := tgt |}).
  { rewrite compile_regexStr, Htok, Hnames. reflexivity. }
  eexists. split; [exact Hc|]. cbn [regex]. rewrite Htok. split.
  - intros v Hv.
    destruct (String_match_pattern (map Text pre ++ [Splat]) (pre ++ v))
      as [found [Hm [Hsome Hnone]]].
    rewrite Hm. destruct found as [mr|].
    + destruct (Hsome mr eq_refl) as [Hi [Ht Hp]].
      apply parses_text_prefix in Hp. destruct Hp as [rest [E Hp]].
      apply app_inv_head in E. subst rest.
      apply parses_splat_only in Hp. destruct Hp as [_ Hg].
      destruct mr as [i t g]. simpl in Hi, Ht, Hg. subst. reflexivity.
    + exfalso. apply (Hnone eq_refl [(lit "splat", v)]).
      apply parses_text_prefix. exists v. split; [reflexivity|].
      apply parses_splat_only. auto.
  - intros url Hno.
    destruct (String_match_pattern (map Text pre ++ [Splat]) url)
      as [found [Hm [Hsome _]]].
    rewrite Hm. destruct found as [mr|]; [|reflexivity].
    destruct (Hsome mr eq_refl) as [_ [_ Hp]].
    apply parses_text_prefix in Hp. destruct Hp as [rest [E Hp]].
    apply parses_splat_only in Hp. destruct Hp as [Hn _].
    rewrite (Hno rest E) in Hn. discriminate.
Qed.

Lemma prefix_star_matches_every_continuation_witness :
  exists m,
    compile (lit "/blog/" ++ lit "*") "/blog-post" = Ok m
    /\ (forall v, no_line_terminator v = true ->
          String_match (lit "/blog/" ++ v) (regex m)
          = Ok (Some {| mr_index := 0; mr_text := lit "/blog/" ++ v;
                        mr_groups := [(lit "splat", v)] |}))
    /\ (forall url,
          (forall v, url = lit "/blog/" ++ v -> no_line_terminator v = false) ->
          String_match url (regex m) = Ok None).
Proof.
  apply (prefix_star_matches_every_continuation "/blog/" "/blog-post").
  reflexivity.
Defined.

(** ** Imports of the scripts of a page *)

Lemma includes_app (a sub b : str) : includes (a ++ sub ++ b) sub = true.
Proof.
  induction a as [|c a IH]; cbn [app].
  - destruct (sub ++ b) eqn:E; unfold includes; fold includes;
      rewrite <- E, startsWith_app; reflexivity.
  - unfold includes; fold includes. rewrite IH. apply orb_true_r.
Qed.

Lemma greedy_all (m : cset) (s : str) (p : option ascii) :
  forallb (accepts m) s = true ->
  exists tl, greedy m p s = (last_prev p s, []) :: tl.
Proof.
  revert p. induction s as [|c s IH]; intros p H; simpl.
  - exists []. reflexivity.
  - simpl in H. apply andb_true_iff in H. destruct H as [Hc Hs].
    rewrite Hc. destruct (IH (Some c) Hs) as [tl ->].
    eexists. reflexivity.
Qed.

Lemma replace_skip_rest (r : re) (v whole s : str) (pos : nat)
    (p : option ascii) :
  replace_from r false v whole pos p s (length s) false = [].
Proof.
  revert pos p. induction s as [|c s IH]; intros pos p; [reflexivity|].
  cbn [replace_from length]. apply IH.
Qed.

(** [s.replace(/\?.*$/, '')] cuts a string at its first question mark when
    no line terminator follows it. *)
Lemma replace_query (file tail whole : str) (pos : nat) (p : option ascii) :
  count_occ ascii_dec file "?"%char = 0 ->
  no_line_terminator tail = true ->
  replace_from (Cat (Chr (CChar "?")) (Cat (Star CAny) (Cat Eol Eps)))
    false [] whole pos p (file ++ "?"%char :: tail) 0 true
  = file.
Proof.
  revert pos p. induction file as [|c s IH]; intros pos p Hq Htail.
  - cbn [app].
    destruct (greedy_all CAny tail (Some "?"%char) Htail) as [tl G].
    cbn [replace_from run m_rest m_prev m_caps accepts flat_map move map
         app fst snd].
    rewrite Ascii.eqb_refl. cbn [flat_map app map m_prev m_rest m_caps move].
    rewrite G.
    cbn [map flat_map run m_rest m_prev m_caps move fst snd app length
         GetSubstitution].
    rewrite Nat.sub_0_r. cbn [app]. apply replace_skip_rest.
  - simpl in Hq. destruct (ascii_dec c "?") as [->|Hne]; [discriminate|].
    apply Ascii.eqb_neq in Hne. rewrite Ascii.eqb_sym in Hne.
    cbn [app replace_from run m_rest accepts flat_map]. rewrite Hne.
    cbn [flat_map]. f_equal. apply IH; assumption.
Qed.

Lemma query_regex : RegExp_new "\?.*$" ""
  = Ok {| rx_re := Cat (Chr (CChar "?")) (Cat (Star CAny) (Cat Eol Eps));
          rx_global := false |}.
Proof. reflexivity. Qed.

(** X12: imports made by the inline scripts of a page are resolved from
    the page.  For the importer Vite gives such a script (a NUL, the HTML
    file, [?html-proxy] and more), [resolveId] recovers the normalised file
    and delegates to [this.resolve] with it exactly when the file lies
    under [<root>/<pagesRoot>/]; and whatever the importer, it delegates
    only for such a file, with the identifier unchanged. *)
Theorem resolveId_resolves_from_page (root : str) (plugin : Plugin)
    (id file more : str) :
  count_occ ascii_dec file "?"%char = 0 ->
  no_line_terminator more = true ->
  resolveId root plugin id
    (Some ("000"%char :: file ++ "?html-proxy" ++ more))
  = Ok (if startsWith (normalizePath file)
             (root ++ "/" ++ pagesRoot plugin ++ "/")
        then Some (id, normalizePath file)
        else None)
  /\ (forall importer id' f,
        resolveId root plugin id importer = Ok (Some (id', f)) ->
        id' = id
        /\ startsWith f (root ++ "/" ++ pagesRoot plugin ++ "/") = true).
Proof.
  intros Hq Hmore. split.
  - unfold resolveId. cbn [truthy negb Ascii.eqb Bool.eqb].
    change ("000"%char :: file ++ lit "?html-proxy" ++ more)
      with (["000"%char] ++ (file ++ lit "?html-proxy" ++ more)).
    rewrite app_assoc, includes_app. cbn [negb].
    rewrite query_regex. cbn [bind]. unfold String_replace.
    cbn [rx_re rx_global has_group orb bind].
    assert (E : slice_from 1
                  ((["000"%char] ++ file) ++ lit "?html-proxy" ++ more)
                = file ++ "?"%char :: (lit "html-proxy" ++ more))
      by (rewrite <- app_assoc; reflexivity).
    rewrite E. change (lit "") with (@nil ascii).
    rewrite replace_query;
      [| exact Hq
       | unfold no_line_terminator in *; rewrite forallb_app, Hmore;
         reflexivity].
    destruct (startsWith _ _); reflexivity.
  - intros importer id' f. unfold resolveId.
    destruct importer as [importer|]; [|discriminate].
    destruct (negb (truthy importer)); [discriminate|].
    destruct (negb _); [discriminate|].
    destruct (negb (includes importer "?html-proxy")); [discriminate|].
    rewrite query_regex. cbn [bind]. unfold String_replace.
    cbn [rx_re rx_global has_group orb bind].
    destruct (startsWith _ (root ++ "/" ++ pagesRoot plugin ++ "/")) eqn:E;
      [|discriminate].
    intros [= <- <-]. split; [reflexivity | exact E].
Qed.

Lemma resolveId_resolves_from_page_witness :
  resolveId "/app" default_plugin "./main.tsx"
    (Some ("000"%char :: lit "/app/src/pages/contact.html"
                         ++ lit "?html-proxy" ++ lit "&index=0.js"))
  = Ok (if startsWith (normalizePath "/app/src/pages/contact.html")
             (lit "/app" ++ lit "/" ++ pagesRoot default_plugin ++ lit "/")
        then Some (lit "./main.tsx", normalizePath "/app/src/pages/contact.html")
        else None).
Proof.
  apply (proj1 (resolveId_resolves_from_page "/app" default_plugin
                  "./main.tsx" "/app/src/pages/contact.html" "&index=0.js"
                  eq_refl eq_refl)).
Defined.

(** No importer, an importer that is no virtual module, and one that is no
    HTML proxy: nothing is resolved. *)
Example resolveId_guards :
  resolveId "/app" default_plugin "./main.tsx" None = Ok None
  /\ resolveId "/app" default_plugin "./main.tsx" (Some []) = Ok None
  /\ resolveId "/app" default_plugin "./main.tsx"
       (Some (lit "/app/src/pages/contact.html?html-proxy&index=0.js"))
     = Ok None
  /\ resolveId "/app" default_plugin "./main.tsx"
       (Some ("000"%char :: lit "/app/src/pages/contact.html"))
     = Ok None.
Proof. repeat split; vm_compute; reflexivity. Qed.

(** ** The query of a document request *)

Lemma request_path_no_question (u : str) :
  count_occ ascii_dec (nth 0 (split "?" u) []) "?"%char = 0.
Proof.
  induction u as [|x u IH]; [reflexivity|]. simpl split.
  destruct (Ascii.eqb x "?") eqn:E; [reflexivity|].
  apply Ascii.eqb_neq in E.
  destruct (split "?" u) as [|p ps]; simpl nth in *.
  - rewrite count_occ_cons_neq by exact E. reflexivity.
  - rewrite count_occ_cons_neq by exact E. exact IH.
Qed.

Lemma query_string_none (a : str) :
  count_occ ascii_dec a "?"%char = 0 -> query_string a = [].
Proof.
  induction a as [|x a IH]; [reflexivity|]. simpl.
  destruct (ascii_dec x "?") as [->|Hne]; [discriminate|].
  apply Ascii.eqb_neq in Hne. rewrite Hne. exact IH.
Qed.

Lemma query_string_app (a q : str) :
  count_occ ascii_dec a "?"%char = 0 ->
  query_string (a ++ "?"%char :: q) = q.
Proof.
  induction a as [|x a IH]; [reflexivity|]. simpl.
  destruct (ascii_dec x "?") as [->|Hne]; [discriminate|].
  apply Ascii.eqb_neq in Hne. rewrite Hne. exact IH.
Qed.

(** ** What a rewritten request looks like *)

Lemma split_before (c : ascii) (u : str) :
  nth 0 (split c u) [] = before c u.
Proof.
  induction u as [|x u IH]; [reflexivity|]. simpl.
  destruct (Ascii.eqb x c); [reflexivity|].
  pose proof (split_not_nil c u) as Hnil.
  destruct (split c u) as [|p ps]; [congruence|]. simpl in *.
  rewrite IH. reflexivity.
Qed.

Lemma split_query_before (u : str) :
  nth 1 (split "?" u) [] = before "?" (query_string u).
Proof.
  induction u as [|x u IH]; [reflexivity|]. simpl.
  destruct (Ascii.eqb x "?"); [apply (split_before "?" u)|].
  pose proof (split_not_nil "?" u) as Hnil.
  destruct (split "?" u) as [|p ps]; [congruence|]. exact IH.
Qed.

Lemma request_path_before (req : Request) :
  request_path req = before "?" (url req).
Proof. apply split_before. Qed.

Lemma query_suffix_before (req : Request) :
  query_suffix req
  = with_question_mark (before "?" (query_string (url req))).
Proof.
  unfold query_suffix, request_query. rewrite split_query_before.
  destruct (before "?" (query_string (url req))); reflexivity.
Qed.

Lemma referrer_page_shape (existsSync : str -> bool) (root : str)
    (plugin : Plugin) (pathname pageUrl : str) :
  referrer_page existsSync root plugin pathname = Ok (Some pageUrl) ->
  exists u, pageUrl = "/" ++ pagesRoot plugin ++ u.
Proof.
  unfold referrer_page, resolveRedirect.
  destruct (resolveRedirect_from existsSync root plugin (redirects plugin)
              pathname) as [[p|]|e] eqn:R; cbn [bind]; [| |discriminate].
  - intros [= <-]. apply resolveRedirect_from_shape in R.
    destruct R as [u [_ ->]]. exists u. reflexivity.
  - intros [= H]. apply resolvePageUrl_shape in H. exists pathname. exact H.
Qed.

Lemma page_url_last_slash (pr u : str) :
  exists dir seg,
    "/" ++ pr ++ u = dir ++ "/" ++ seg /\ no_slash seg = true.
Proof.
  destruct (last_slash_split (lit "/" ++ pr ++ u)) as [H|[a [b [E H]]]].
  - discriminate H.
  - exists a, b. split; [exact E | exact H].
Qed.

(** C2: for a sub-resource request that comes with a referrer, is not
    under [/@vite/] and whose referrer resolves to a page, the request
    handed on has for URL the directory of that page (the page URL up to
    its last slash) followed by the request path (the URL up to its first
    question mark) and the query, with [originalUrl] deleted and the
    headers kept, exactly when a file exists at that location and none
    exists at the request path itself; otherwise, in particular when both
    files exist, it is handed on unchanged. *)
Theorem middleware_asset_precedence
    (existsSync : str -> bool) (URL_pathname : str -> result str)
    (root : str) (plugin : Plugin)
    (req : Request) (dest ref pathname pageUrl : str) :
  sec_fetch_dest req = Some dest ->
  truthy dest = true ->
  dest <> lit "document" ->
  referer req = Some ref ->
  truthy ref = true ->
  startsWith (request_path req) "/@vite/" = false ->
  URL_pathname ref = Ok pathname ->
  referrer_page existsSync root plugin pathname = Ok (Some pageUrl) ->
  (exists dir seg,
      pageUrl = dir ++ "/" ++ seg /\ no_slash seg = true
      /\ asset_url pageUrl req = dir ++ before "?" (url req))
  /\ request_path req = before "?" (url req)
  /\ (existsSync (path_join [root; asset_url pageUrl req]) = true
      /\ existsSync (path_join [root; request_path req]) = false ->
      exists req',
        middleware existsSync URL_pathname root plugin req = Ok req'
        /\ url req'
           = asset_url pageUrl req
             ++ with_question_mark (before "?" (query_string (url req)))
        /\ originalUrl req' = None
        /\ sec_fetch_dest req' = sec_fetch_dest req
        /\ referer req' = referer req)
  /\ (~ (existsSync (path_join [root; asset_url pageUrl req]) = true
         /\ existsSync (path_join [root; request_path req]) = false) ->
      middleware existsSync URL_pathname root plugin req = Ok req)
  /\ (existsSync (path_join [root; asset_url pageUrl req]) = true
      /\ existsSync (path_join [root; request_path req]) = true ->
      middleware existsSync URL_pathname root plugin req = Ok req).
Proof.
  intros Hdest Htruthy Hdoc Href Hreft Hvite Hpath Hpage.
  destruct (middleware_asset_cases existsSync URL_pathname root plugin req
              dest ref pathname pageUrl Hdest Htruthy Hdoc Href Hreft Hvite
              Hpath Hpage) as [Hrew [Hnot Hboth]].
  split; [|split; [|split; [|split]]].
  - destruct (referrer_page_shape _ _ _ _ _ Hpage) as [u ->].
    destruct (page_url_last_slash (pagesRoot plugin) u)
      as [dir [seg [E Hseg]]].
    exists dir, seg. split; [exact E|]. split; [exact Hseg|].
    unfold asset_url. rewrite E, (page_directory_last_slash dir seg Hseg).
    rewrite request_path_before. reflexivity.
  - apply request_path_before.
  - intros H. eexists. split; [apply Hrew; exact H|].
    rewrite <- query_suffix_before. repeat split; reflexivity.
  - exact Hnot.
  - exact Hboth.
Qed.

Lemma middleware_asset_precedence_witness :
  exists req',
    middleware
      (files_exist [lit "/app/src/pages/contact.html";
                    lit "/app/src/pages/logo.png"])
      sample_pathname "/app" default_plugin
      (asset_request "/logo.png?v=1" "image" "http://localhost/contact")
    = Ok req'
    /\ url req' = lit "/src/pages/logo.png?v=1"
    /\ originalUrl req' = None
    /\ sec_fetch_dest req'
       = sec_fetch_dest (asset_request "/logo.png?v=1" "image"
                           "http://localhost/contact")
    /\ referer req'
       = referer (asset_request "/logo.png?v=1" "image"
                    "http://localhost/contact").
Proof.
  refine (proj1 (proj2 (proj2
            (middleware_asset_precedence
               (files_exist [lit "/app/src/pages/contact.html";
                             lit "/app/src/pages/logo.png"])
               sample_pathname "/app" default_plugin
               (asset_request "/logo.png?v=1" "image"
                  "http://localhost/contact")
               "image" "http://localhost/contact" "/contact"
               "/src/pages/contact" _ _ _ _ _ _ _ _))) _).
  - reflexivity.
  - reflexivity.
  - intros E. vm_compute in E. discriminate.
  - reflexivity.
  - reflexivity.
  - reflexivity.
  - reflexivity.
  - vm_compute. reflexivity.
  - split; reflexivity.
Defined.

(** The rewritten URL of the witness, in full. *)
Example asset_rewrite_in_full :
  asset_url "/src/pages/contact"
    (asset_request "/logo.png?v=1" "image" "http://localhost/contact")
  ++ with_question_mark
       (before "?"
          (query_string
             (url (asset_request "/logo.png?v=1" "image"
                     "http://localhost/contact"))))
  = lit "/src/pages/logo.png?v=1".
Proof. reflexivity. Qed.

(** X16: a document request whose URL holds one question mark at most keeps
    its query through the rewrite: when the Redirect Resolver finds nothing
    and the Page Resolver finds the page [p], the request handed on has for
    URL the page [p], which is [/<pagesRoot>] followed by the URL up to its
    question mark, then the question mark and the query if there is one;
    its query string is the one of the URL that came in, [originalUrl] is
    deleted and the headers are kept. *)
Theorem document_rewrite_keeps_single_query
    (existsSync : str -> bool) (URL_pathname : str -> result str)
    (root : str) (plugin : Plugin) (req : Request) (p : str) :
  sec_fetch_dest req = Some (lit "document") ->
  count_occ ascii_dec (url req) "?"%char <= 1 ->
  count_occ ascii_dec (pagesRoot plugin) "?"%char = 0 ->
  resolveRedirect existsSync root plugin (request_path req) = Ok None ->
  resolvePageUrl existsSync root plugin (request_path req) = Some p ->
  exists req',
    middleware existsSync URL_pathname root plugin req = Ok req'
    /\ p = "/" ++ pagesRoot plugin ++ before "?" (url req)
    /\ url req' = p ++ with_question_mark (query_string (url req))
    /\ query_string (url req') = query_string (url req)
    /\ originalUrl req' = None
    /\ sec_fetch_dest req' = sec_fetch_dest req
    /\ referer req' = referer req.
Proof.
  intros Hdoc Hone Hroot Hred Hpage.
  assert (Hm : middleware existsSync URL_pathname root plugin req
               = Ok (rewrite req (p ++ query_suffix req))).
  { rewrite (middleware_document _ _ _ _ _ Hdoc), Hred. cbn [bind].
    rewrite Hpage. reflexivity. }
  assert (Hs : query_suffix req = with_question_mark (query_string (url req))).
  { unfold query_suffix. rewrite (single_query_read_whole req Hone).
    destruct (query_string (url req)); reflexivity. }
  apply resolvePageUrl_shape in Hpage.
  assert (Hp : count_occ ascii_dec p "?"%char = 0).
  { subst p. rewrite !count_occ_app, Hroot.
    unfold request_path. rewrite request_path_no_question. reflexivity. }
  eexists. split; [exact Hm|].
  split; [rewrite <- request_path_before; exact Hpage|].
  cbn [url originalUrl sec_fetch_dest referer rewrite]. rewrite Hs.
  split; [reflexivity|]. split; [|repeat split; reflexivity].
  destruct (query_string (url req)) as [|c q]; cbn [with_question_mark].
  - rewrite app_nil_r. apply query_string_none. exact Hp.
  - apply (query_string_app p (c :: q) Hp).
Qed.

Lemma document_rewrite_keeps_single_query_witness :
  exists req',
    middleware (files_exist [lit "/app/src/pages/contact.html"])
      sample_pathname "/app" default_plugin
      (document_request "/contact?a=1&b=2") = Ok req'
    /\ lit "/src/pages/contact"
       = lit "/" ++ pagesRoot default_plugin
         ++ before "?" (url (document_request "/contact?a=1&b=2"))
    /\ url req' = lit "/src/pages/contact?a=1&b=2"
    /\ query_string (url req') = lit "a=1&b=2"
    /\ originalUrl req' = None
    /\ sec_fetch_dest req'
       = sec_fetch_dest (document_request "/contact?a=1&b=2")
    /\ referer req' = referer (document_request "/contact?a=1&b=2").
Proof.
  apply (document_rewrite_keeps_single_query
           (files_exist [lit "/app/src/pages/contact.html"])
           sample_pathname "/app" default_plugin
           (document_request "/contact?a=1&b=2") "/src/pages/contact").
  - reflexivity.
  - vm_compute. lia.
  - reflexivity.
  - reflexivity.
  - reflexivity.
Defined.

(** The rewritten URL of the witness, in full. *)
Example document_rewrite_in_full :
  lit "/src/pages/contact"
  ++ with_question_mark
       (query_string (url (document_request "/contact?a=1&b=2")))
  = lit "/src/pages/contact?a=1&b=2".
Proof. reflexivity. Qed.

(** ** What the Redirect Resolver returns for the rule that matches *)

Lemma slash_prefixed_code (t t' : str) :
  slash_prefixed t t' ->
  (if startsWith t "/" then t else "/" ++ t) = t'.
Proof.
  intros [[[r ->] ->]|[Hno ->]].
  - reflexivity.
  - destruct (startsWith t "/") eqn:E; [|reflexivity].
    apply startsWith_prefix in E. destruct E as [r E].
    exfalso. apply (Hno r). exact E.
Qed.

Lemma html_stripped_code (t' s : str) :
  html_stripped t' s -> strip_html t' = s.
Proof.
  intros [->|[Hno ->]].
  - apply strip_html_app.
  - unfold strip_html. destruct (endsWith t' ".html") eqn:E; [|reflexivity].
    apply endsWith_suffix in E. destruct E as [y E].
    exfalso. apply (Hno y). exact E.
Qed.

Lemma resolvePageUrl_directory (existsSync : str -> bool) (root : str)
    (plugin : Plugin) (s : str) :
  (exists y, "/" ++ pagesRoot plugin ++ s = y ++ "/") ->
  resolvePageUrl existsSync root plugin s
  = if existsSync (path_join [root; "/" ++ pagesRoot plugin ++ s;
                              lit "index.html"])
    then Some ("/" ++ pagesRoot plugin ++ s) else None.
Proof.
  intros [y E]. unfold resolvePageUrl.
  replace (endsWith ("/" ++ pagesRoot plugin ++ s) "/") with true;
    [reflexivity|].
  rewrite E. symmetry. apply endsWith_app.
Qed.

Lemma resolvePageUrl_file (existsSync : str -> bool) (root : str)
    (plugin : Plugin) (s : str) :
  (forall y, "/" ++ pagesRoot plugin ++ s <> y ++ "/") ->
  resolvePageUrl existsSync root plugin s
  = if existsSync (path_join [root; ("/" ++ pagesRoot plugin ++ s) ++ ".html"])
    then Some ("/" ++ pagesRoot plugin ++ s) else None.
Proof.
  intros Hno. unfold resolvePageUrl.
  destruct (endsWith ("/" ++ pagesRoot plugin ++ s) "/") eqn:E;
    [|reflexivity].
  apply endsWith_suffix in E. destruct E as [y E].
  exfalso. apply (Hno y). exact E.
Qed.

(** C3: the Redirect Resolver asks the compiled rules in declaration
    order, and the first rule whose matcher succeeds on the request path
    decides, whatever rules follow it. With [t] the substituted target that
    rule's matcher returns, [t'] the target with a slash put in front
    unless it has one, and [s] that string without a final [.html], the
    page is [/<pagesRoot>] followed by [s]: it is returned when its file
    exists ([index.html] in it when it ends with a slash, the page with
    [.html] added otherwise), and nothing is returned when that file does
    not exist; the rules declared later are not tried. *)
Theorem resolveRedirect_first_match_wins
    (existsSync : str -> bool) (root : str) (plugin : Plugin)
    (options : Options) (earlier later : list (str * str))
    (pattern tgt : str) (m : Matcher) (url t : str) :
  viteMultiSpa options = Ok plugin ->
  opt_redirects options = earlier ++ (pattern, tgt) :: later ->
  (forall e m', In e earlier -> compile (fst e) (snd e) = Ok m' ->
                Matcher_call m' url = Ok None) ->
  compile pattern tgt = Ok m ->
  Matcher_call m url = Ok (Some t) ->
  (resolveRedirect existsSync root plugin url
   = Ok (redirect_page existsSync root plugin t)
   /\ (redirect_page existsSync root plugin t = None ->
       resolveRedirect existsSync root plugin url = Ok None))
  /\ forall t' s : str,
       slash_prefixed t t' ->
       html_stripped t' s ->
       ((exists y, "/" ++ pagesRoot plugin ++ s = y ++ "/") ->
        resolveRedirect existsSync root plugin url
        = Ok (if existsSync (path_join [root; "/" ++ pagesRoot plugin ++ s;
                                        lit "index.html"])
              then Some ("/" ++ pagesRoot plugin ++ s) else None))
       /\ ((forall y, "/" ++ pagesRoot plugin ++ s <> y ++ "/") ->
           resolveRedirect existsSync root plugin url
           = Ok (if existsSync
                      (path_join [root;
                                  ("/" ++ pagesRoot plugin ++ s) ++ ".html"])
                 then Some ("/" ++ pagesRoot plugin ++ s) else None)).
Proof.
  intros Hinit Hdecl Hearlier Hm Hcall.
  destruct (resolveRedirect_first_match_page existsSync root plugin options
              earlier later pattern tgt m url t Hinit Hdecl Hearlier Hm
              Hcall) as [E Hnone].
  split; [split; [exact E | exact Hnone]|].
  intros t' s Hslash Hhtml. rewrite E. unfold redirect_page.
  rewrite (slash_prefixed_code t t' Hslash).
  rewrite (html_stripped_code t' s Hhtml).
  split; intros Hend.
  - rewrite (resolvePageUrl_directory existsSync root plugin s Hend).
    reflexivity.
  - rewrite (resolvePageUrl_file existsSync root plugin s Hend).
    reflexivity.
Qed.

Lemma resolveRedirect_first_match_wins_witness :
  resolveRedirect
    (files_exist [lit "/app/src/pages/p/b.html";
                  lit "/app/src/pages/second.html"])
    "/app" html_plugin "/a/b"
  = Ok (Some (lit "/src/pages/p/b"))
  /\ resolveRedirect (files_exist [lit "/app/src/pages/second.html"])
       "/app" html_plugin "/a/b"
     = Ok None.
Proof.
  assert (Hfile : forall y : str, lit "/src/pages/p/b" <> y ++ "/").
  { intros y E.
    assert (H : endsWith (lit "/src/pages/p/b") "/" = true)
      by (rewrite E; apply endsWith_app).
    vm_compute in H. discriminate H. }
  split.
  - refine (proj2 (proj2
              (resolveRedirect_first_match_wins
                 (files_exist [lit "/app/src/pages/p/b.html";
                               lit "/app/src/pages/second.html"])
                 "/app" html_plugin html_options
                 [(lit "/x/:id", lit "/x")] [(lit "/a/*", lit "/second")]
                 "/a/:x" "p/:x.html" (compiled "/a/:x" "p/:x.html")
                 "/a/b" "p/b.html" _ _ _ _ _)
              "/p/b.html" "/p/b" _ _) Hfile).
    + vm_compute. reflexivity.
    + reflexivity.
    + intros e m' [<-|[]] H. vm_compute in H. injection H as <-.
      vm_compute. reflexivity.
    + vm_compute. reflexivity.
    + vm_compute. reflexivity.
    + right. split; [intros r E; discriminate E | reflexivity].
    + left. reflexivity.
  - refine (proj2 (proj2
              (resolveRedirect_first_match_wins
                 (files_exist [lit "/app/src/pages/second.html"])
                 "/app" html_plugin html_options
                 [(lit "/x/:id", lit "/x")] [(lit "/a/*", lit "/second")]
                 "/a/:x" "p/:x.html" (compiled "/a/:x" "p/:x.html")
                 "/a/b" "p/b.html" _ _ _ _ _)
              "/p/b.html" "/p/b" _ _) Hfile).
    + vm_compute. reflexivity.
    + reflexivity.
    + intros e m' [<-|[]] H. vm_compute in H. injection H as <-.
      vm_compute. reflexivity.
    + vm_compute. reflexivity.
    + vm_compute. reflexivity.
    + right. split; [intros r E; discriminate E | reflexivity].
    + left. reflexivity.
Defined.

(** The rule declared after the matching one matches the same path and its
    page exists, yet it is not the one returned. *)
Example later_rule_would_have_matched :
  Matcher_call (compiled "/a/*" "/second") "/a/b" = Ok (Some (lit "/second"))
  /\ resolvePageUrl (files_exist [lit "/app/src/pages/second.html"]) "/app"
       html_plugin "/second"
     = Some (lit "/src/pages/second").
Proof. split; vm_compute; reflexivity. Qed.
